(** * TRX auto forwarder: a shallow embedding of [forwarder.js],
      [tronService.js], [config.js] and [logger.js], and the properties
      of the balance-watch-and-forward engine.

    Modelling decisions.
    - A JavaScript number holding a TRX amount is an exact rational [Q]:
      [a < b] is [Qltb a b], [a <= b] is [Qle_bool a b], [a - b] is
      [Qminus].  IEEE rounding, [NaN] and infinities are outside the model.
    - A thrown value is an [Error] carrying its optional [message].
    - The global [logger] is an append-only list of [LogEvent]s; message
      templates are constructors carrying the interpolated values.
    - An [async] method is a resumption ([Prog]): it runs to its next
      [await] of a [TronService] call, and is resumed with what the call
      resolved or rejected with.  A service method touches nothing of the
      forwarder, so its own three awaits are taken in one step: it logs
      and settles when the node has answered.
    - Timers ([setInterval], [setTimeout]) and the pool of suspended calls
      live in a [World] stepped by [Input]s.  An armed timer may fire at
      any turn: delays are not measured against the clock.
    - The logger's own code is modelled apart ([Logger]): what it prints
      and what it appends to its file.  A string is a sequence of [ascii]
      characters and [String.length] is its [length].
    - [waitForConfirmation] is called by nothing in the forwarder; it is
      run to its end on the answers of the node ([Confirmation]). *)

From Stdlib Require Import String Ascii Bool List ZArith QArith Lqa Lia.
From Stdlib Require Qcanon.
From Stdlib Require Import DecimalString Qround Qabs.
Import ListNotations.

Local Open Scope string_scope.
Local Open Scope list_scope.
Local Open Scope Q_scope.

(* ================================================================== *)
(** * JavaScript values *)

Module Js.

(** [a < b] on numbers. *)
Definition Qltb (a b : Q) : bool :=
  match a ?= b with Lt => true | _ => false end.

(** A thrown value; [message] is [None] when the value has no such
    property (TronWeb rejects with plain strings and objects too). *)
Record Error : Type := mkError { message : option string }.

(** [new Error(msg)] *)
Definition new_Error (msg : string) : Error := mkError (Some msg).

(** What an awaited promise settles to. *)
Inductive Result (A : Type) : Type :=
| Resolved (a : A)
| Rejected (e : Error).
Arguments Resolved {A} a.
Arguments Rejected {A} e.

(** Truthiness of a possibly missing string: [undefined] and the empty
    string are falsy. *)
Definition truthy (s : option string) : bool :=
  match s with
  | None => false
  | Some EmptyString => false
  | Some _ => true
  end.

(** [a || b] on possibly missing strings. *)
Definition or_else (a b : option string) : option string :=
  if truthy a then a else b.

(** [a || d] where [d] is a string literal. *)
Definition or_default (a : option string) (d : string) : string :=
  match a with
  | None => d
  | Some EmptyString => d
  | Some s => s
  end.

(** [parseFloat(x) || d]: [None] is [NaN]; [NaN] and [0] are falsy. *)
Definition number_or (x : option Q) (d : Q) : Q :=
  match x with
  | Some v => if Qeq_bool v 0 then d else v
  | None => d
  end.

(** [parseInt(x) || d] *)
Definition integer_or (x : option Z) (d : Z) : Z :=
  match x with
  | Some v => if Z.eqb v 0 then d else v
  | None => d
  end.

(** [isNaN(x)] for a number of the model, which is never [NaN]. *)
Definition isNaN {num : Type} (x : num) : bool := false.

(** [hay.includes(needle)] *)
Definition includes (hay needle : string) : bool :=
  match String.index 0 needle hay with Some _ => true | None => false end.

End Js.
Import Js.

(* ================================================================== *)
(** * logger.js *)

(** The keys of [icons]: the [type] argument of [Logger.log]. *)
Inductive LogType : Type :=
| info | success | error | warning | transfer | config | balance | monitor.

(** The message templates of the sources, with their interpolated values.
    [formatTrx] only renders a number; the number itself is kept. *)
Inductive Msg : Type :=
(* forwarder.js *)
| MsgStarting
| MsgSourceAddress (sourceAddress : string)
| MsgInitialBalance (initialBalance : Q)
| MsgMonitoringStarted
| MsgCheckEvery (seconds : Q)
| MsgStartFailed
| MsgMonitoringStopped
| MsgAlreadyProcessing
| MsgNewDeposit
| MsgReceived (receivedAmount : Q)
| MsgNewBalance (currentBalance : Q)
| MsgBalanceDecreased (lastBalance currentBalance : Q)
| MsgCheckFailed
| MsgBelowMinimum (balance minAmount : Q)
| MsgNotForwarded
| MsgNothingLeftAfterReserve (reserveAmount : Q)
| MsgRule
| MsgPreparing
| MsgPrepBalance (balance : Q)
| MsgPrepReserve (reserveAmount : Q)
| MsgPrepToSend (amountToSend : Q)
| MsgPrepRecipient (destinationAddress : string)
| MsgForwarded
| MsgRemaining (newBalance : Q)
| MsgNewBalanceFailed
| MsgForwardFailed
| MsgFeeInsufficient
| MsgRaiseReserveHint
| MsgStatsTitle
| MsgRunTime (hours minutes seconds : Z)
| MsgTransfersCount (transfersCount : nat)
| MsgTotalForwarded (totalAmount : Q)
(* tronService.js *)
| MsgGetBalanceFailed (address : string)
| MsgCreatingTransaction (amount : Q) (toAddress : string)
| MsgTransactionSent
| MsgTxId (txid : option string)
| MsgTxView (txid : option string)
| MsgSendFailed (toAddress : string).

Inductive LogEvent : Type :=
| Log (type : LogType) (m : Msg)           (* logger.info(m), ... *)
| LogError (m : Msg) (e : Error)           (* logger.error(m, e), e given *)
| Separator (char : string).               (* logger.separator(char) *)

Definition Logs := list LogEvent.

(* ================================================================== *)
(** * logger.js: the two sinks *)

Module Logger.

Local Open Scope string_scope.

(** The escape character that starts an ANSI code, and the line feed. *)
Definition esc : ascii := ascii_of_nat 27.
Definition lf : string := String (ascii_of_nat 10) "".

(** The entries of [colors] the logger uses. *)
Definition reset : string := String esc "[0m".
Definition dim : string := String esc "[2m".
Definition red : string := String esc "[31m".
Definition green : string := String esc "[32m".
Definition yellow : string := String esc "[33m".
Definition blue : string := String esc "[34m".
Definition magenta : string := String esc "[35m".
Definition cyan : string := String esc "[36m".
Definition white : string := String esc "[37m".

(** [icons[type]]; every key has an icon, so [|| ''] never applies. *)
Definition icons (type : LogType) : string :=
  match type with
  | info => "📋"
  | success => "✅"
  | error => "❌"
  | warning => "⚠️"
  | transfer => "💸"
  | config => "⚙️"
  | balance => "💰"
  | monitor => "👀"
  end.

(** What has been printed to the console, line by line, and what has been
    appended to [logs/forwarder.log], chunk by chunk. *)
Record Sinks : Type := mkSinks {
  console : list string;
  file : list string
}.

(** What [new Date()] shows during a call: the local time of day and the
    ISO rendering. *)
Record Clock : Type := mkClock {
  hours : nat;
  minutes : nat;
  seconds : nat;
  iso : string
}.

(** A value passed to [logger.error] as the error: its [message] and its
    [stack], each possibly missing. *)
Record Failure : Type := mkFailure {
  failure_message : option string;
  stack : option string
}.

(** [console.log(line)] *)
Definition console_log (line : string) (s : Sinks) : Sinks :=
  {| console := (s.(console) ++ [line])%list; file := s.(file) |}.

(** [fs.appendFileSync(this.logFile, chunk, 'utf8')]: the chunk is
    appended, or the call throws what the disk fails with. *)
Definition appendFileSync (disk : Result unit) (chunk : string) (s : Sinks)
  : Result Sinks :=
  match disk with
  | Resolved _ =>
      Resolved {| console := s.(console); file := (s.(file) ++ [chunk])%list |}
  | Rejected e => Rejected e
  end.

(** [String(n)] for a natural number. *)
Definition String_of (n : nat) : string :=
  NilEmpty.string_of_uint (Nat.to_uint n).

(** [s.padStart(targetLength, fill)] for a one-character [fill]. *)
Definition padStart (targetLength : nat) (fill : ascii) (s : string)
  : string :=
  string_of_list_ascii (repeat fill (targetLength - String.length s)) ++ s.

(** [getTimestamp()], lines 65-71. *)
Definition getTimestamp (now : Clock) : string :=
  let hours := padStart 2 "0" (String_of now.(hours)) in
  let minutes := padStart 2 "0" (String_of now.(minutes)) in
  let seconds := padStart 2 "0" (String_of now.(seconds)) in
  "[" ++ hours ++ ":" ++ minutes ++ ":" ++ seconds ++ "]".

(** [writeToFile(message)], lines 77-85: whatever the write throws is
    caught and dropped. *)
Definition writeToFile (now : Clock) (disk : Result unit) (message : string)
  (s : Sinks) : Sinks :=
  let timestamp := now.(iso) in
  let logMessage := timestamp ++ " " ++ message ++ lf in
  match appendFileSync disk logMessage s with
  | Resolved s' => s'
  | Rejected _ => s
  end.

(** [log(type, message, color)], lines 90-100. *)
Definition log (type : LogType) (message : string) (color : string)
  (now : Clock) (disk : Result unit) (s : Sinks) : Sinks :=
  let timestamp := getTimestamp now in
  let icon := icons type in
  let consoleMessage :=
    dim ++ timestamp ++ reset ++ " " ++ icon ++ " " ++ color ++ message
        ++ reset in
  let s := console_log consoleMessage s in
  let fileMessage := timestamp ++ " " ++ icon ++ " " ++ message in
  writeToFile now disk fileMessage s.

(** A template literal renders a missing value as [undefined]. *)
Definition render (v : option string) : string :=
  match v with Some s => s | None => "undefined" end.

(** [error(message, error)], lines 119-127; [None] is the default
    [null]. *)
Definition log_error (message : string) (err : option Failure)
  (now : Clock) (disk : Result unit) (s : Sinks) : Sinks :=
  let errorMessage :=
    match err with
    | Some e => message ++ ": " ++ render e.(failure_message)
    | None => message
    end in
  let s := log error errorMessage red now disk s in
  match err with
  | Some e =>
      if truthy e.(stack)
      then writeToFile now disk ("Stack trace: " ++ render e.(stack)) s
      else s
  | None => s
  end.

(** The other levels, lines 105-161. *)
Definition log_info m := log info m cyan.
Definition log_success m := log success m green.
Definition log_warning m := log warning m yellow.
Definition log_transfer m := log transfer m magenta.
Definition log_config m := log config m blue.
Definition log_balance m := log balance m yellow.
Definition log_monitor m := log monitor m cyan.

(** [s.repeat(count)]: [None] is the [RangeError] of a negative count. *)
Fixpoint copies (s : string) (n : nat) : string :=
  match n with O => "" | S n' => s ++ copies s n' end.




(** A string without the escape character. *)
Definition plain (s : string) : Prop := ~ In esc (list_ascii_of_string s).

End Logger.

(* ================================================================== *)
(** * tronService.js *)

Module TronService.

(** A transaction object as TronWeb hands it around; only [txID] is read. *)
Record Transaction : Type := mkTransaction { txID : option string }.

(** What [tronWeb.trx.sendRawTransaction] resolves to. *)
Record BroadcastResult : Type := mkBroadcastResult {
  br_result : bool;                     (* result.result, as a truth value *)
  br_txid : option string;              (* result.txid *)
  br_transaction : option Transaction;  (* result.transaction *)
  br_message : option string            (* result.message *)
}.

(** What [sendTrx] returns. *)
Record SendResult : Type := mkSendResult {
  sr_success : bool;
  sr_txid : option string;
  sr_amount : Q;
  sr_toAddress : string
}.

(** How the node answers the three awaited TronWeb calls of one
    [sendTrx]; an answer is consulted only if the call is reached. *)
Record SubmitReplies : Type := mkSubmitReplies {
  (* transactionBuilder.sendTrx(to, amountSun, from) *)
  on_build : string -> Q -> string -> Result Transaction;
  (* trx.sign(transaction) *)
  on_sign : Transaction -> Result Transaction;
  (* trx.sendRawTransaction(signedTransaction) *)
  on_broadcast : Transaction -> Result BroadcastResult
}.

(** A service method body: the lines it logs, and how it settles. *)
Definition Eff (A : Type) : Type := Logs * Result A.

Definition ret {A} (a : A) : Eff A := ([], Resolved a).
Definition throw {A} (e : Error) : Eff A := ([], Rejected e).
Definition say (ev : LogEvent) : Eff unit := ([ev], Resolved tt).
(** [await p] for a promise that has settled to [r]. *)
Definition await {A} (r : Result A) : Eff A := ([], r).

Definition bind {A B} (m : Eff A) (k : A -> Eff B) : Eff B :=
  match m with
  | (l, Resolved a) => let (l', r) := k a in (l ++ l', r)
  | (l, Rejected e) => (l, Rejected e)
  end.

(** [try { m } catch (error) { h error }] *)
Definition try_catch {A} (m : Eff A) (h : Error -> Eff A) : Eff A :=
  match m with
  | (l, Resolved a) => (l, Resolved a)
  | (l, Rejected e) => let (l', r) := h e in (l ++ l', r)
  end.

Declare Scope eff_scope.
Delimit Scope eff_scope with eff.
Notation "x <- m ;; k" := (bind m (fun x => k))
  (at level 61, m at next level, right associativity) : eff_scope.
Notation "m ;; k" := (bind m (fun _ => k))
  (at level 61, right associativity) : eff_scope.
Local Open Scope eff_scope.

(** [tronWeb.fromSun] followed by [parseFloat]: 1 TRX = 1,000,000 SUN. *)
Definition fromSun (sun : Z) : Q := Qred (sun # 1000000).

(** [tronWeb.toSun] *)
Definition toSun (trx : Q) : Q := trx * 1000000.

(** [getBalance(address)], given what [tronWeb.trx.getBalance] settles to. *)
Definition getBalance (node : Result Z) (address : string) : Eff Q :=
  try_catch
    (balanceSun <- await node ;;
     let balanceTrx := fromSun balanceSun in
     ret balanceTrx)
    (fun err =>
       say (LogError (MsgGetBalanceFailed address) err) ;;
       throw err).

(** [sendTrx(toAddress, amount)]; [defaultAddress] is
    [this.tronWeb.defaultAddress.base58]. *)
Definition sendTrx (node : SubmitReplies) (defaultAddress : string)
  (toAddress : string) (amount : Q) : Eff SendResult :=
  try_catch
    (let amountSun := toSun amount in
     say (Log info (MsgCreatingTransaction amount toAddress)) ;;
     transaction <- await (on_build node toAddress amountSun defaultAddress) ;;
     signedTransaction <- await (on_sign node transaction) ;;
     result <- await (on_broadcast node signedTransaction) ;;
     if result.(br_result) then
       let txid :=
         or_else result.(br_txid)
                 (match result.(br_transaction) with
                  | Some t => t.(txID)
                  | None => None
                  end) in
       say (Log success MsgTransactionSent) ;;
       say (Log transfer (MsgTxId txid)) ;;
       say (Log transfer (MsgTxView txid)) ;;
       ret (mkSendResult true txid amount toAddress)
     else
       throw (new_Error
                (or_default result.(br_message)
                            "Неизвестная ошибка при отправке транзакции")))
    (fun err =>
       say (LogError (MsgSendFailed toAddress) err) ;;
       throw err).

End TronService.

(* ================================================================== *)
(** * tronService.js: reading transactions *)

Module Confirmation.

(** An entry of [tx.ret]. *)
Record RetEntry : Type := mkRetEntry { contractRet : option string }.

(** What [tronWeb.trx.getTransaction] resolves to; only [ret] is read. *)
Record TransactionInfo : Type := mkTransactionInfo {
  ret : option (list RetEntry)
}.

(** The message templates of lines 186-216. *)
Inductive Line : Type :=
| LineGetTransactionFailed (txid : string)
| LineConfirmed (txid : string)
| LineWaiting (attempt maxAttempts : nat)
| LineNotConfirmed (txid : string) (maxAttempts : nat).

(** What [waitForConfirmation] does, in order. *)
Inductive Event : Type :=
| Queried (txid : string)                 (* tronWeb.trx.getTransaction *)
| Logged (type : LogType) (l : Line)      (* logger.success, .info, ... *)
| LoggedError (l : Line) (e : Error)      (* logger.error(l, e) *)
| Slept (ms : Z).                         (* the awaited setTimeout *)

(** An async body run to its end on the answers of the node: what it
    did, and how it settled. *)
Definition Run (A : Type) : Type := list Event * Result A.

Definition pure {A} (a : A) : Run A := ([], Resolved a).
Definition throw {A} (e : Error) : Run A := ([], Rejected e).
Definition tell (ev : Event) : Run unit := ([ev], Resolved tt).

Definition bind {A B} (m : Run A) (k : A -> Run B) : Run B :=
  match m with
  | (l, Resolved a) => let (l', r) := k a in (l ++ l', r)
  | (l, Rejected e) => (l, Rejected e)
  end.

(** [try { m } catch (error) { h error }] *)
Definition try_catch {A} (m : Run A) (h : Error -> Run A) : Run A :=
  match m with
  | (l, Resolved a) => (l, Resolved a)
  | (l, Rejected e) => let (l', r) := h e in (l ++ l', r)
  end.

Declare Scope run_scope.
Delimit Scope run_scope with run.
Notation "x <- m ;; k" := (bind m (fun x => k))
  (at level 61, m at next level, right associativity) : run_scope.
Notation "m ;; k" := (bind m (fun _ => k))
  (at level 61, right associativity) : run_scope.
Local Open Scope run_scope.

(** [await p] for a promise that settles to [r]. *)
Definition await {A} (r : Result A) : Run A := ([], r).

(** [await new Promise(resolve => setTimeout(resolve, ms))] *)
Definition sleep (ms : Z) : Run unit := tell (Slept ms).

(** [getTransaction(txid)], lines 181-189, given what the node call
    settles to. *)
Definition getTransaction (node : Result (option TransactionInfo))
  (txid : string) : Run (option TransactionInfo) :=
  try_catch
    (tell (Queried txid) ;;
     transaction <- await node ;;
     pure transaction)
    (fun err =>
       tell (LoggedError (LineGetTransactionFailed txid) err) ;;
       throw err).

(** [tx && tx.ret && tx.ret[0] && tx.ret[0].contractRet === 'SUCCESS'],
    line 203: an array is truthy even when empty, its missing first entry
    is not. *)
Definition confirmed (tx : option TransactionInfo) : bool :=
  match tx with
  | Some t =>
      match ret t with
      | Some (r :: _) =>
          match contractRet r with
          | Some s => String.eqb s "SUCCESS"
          | None => false
          end
      | _ => false
      end
  | None => false
  end.

(** The loop of lines 199-214 from iteration [i] on, with [remaining]
    iterations to go; [node i] is what the node answers to the query of
    iteration [i].  [Some true] stands for the [return true] of line 205. *)
Fixpoint attempts (node : nat -> Result (option TransactionInfo))
  (txid : string) (maxAttempts : nat) (interval : Z) (i remaining : nat)
  : Run bool :=
  match remaining with
  | O =>
      tell (Logged warning (LineNotConfirmed txid maxAttempts)) ;;
      pure false
  | S remaining' =>
      returned <-
        try_catch
          (tx <- getTransaction (node i) txid ;;
           if confirmed tx then
             tell (Logged success (LineConfirmed txid)) ;;
             pure (Some true)
           else
             tell (Logged info (LineWaiting (i + 1)%nat maxAttempts)) ;;
             sleep interval ;;
             pure None)
          (fun _ => sleep interval ;; pure None) ;;
      match returned with
      | Some b => pure b
      | None => attempts node txid maxAttempts interval (S i) remaining'
      end
  end.

(** [waitForConfirmation(txid, maxAttempts, interval)], lines 198-218,
    for a whole number of attempts. *)
Definition waitForConfirmation (node : nat -> Result (option TransactionInfo))
  (txid : string) (maxAttempts : nat) (interval : Z) : Run bool :=
  attempts node txid maxAttempts interval 0 maxAttempts.

(** The optional arguments of line 198. *)
Definition default_maxAttempts : nat := 30.
Definition default_interval : Z := 3000.

(** The queries made, the time slept and the errors logged. *)
Fixpoint queries (l : list Event) : nat :=
  match l with
  | [] => 0
  | Queried _ :: rest => S (queries rest)
  | _ :: rest => queries rest
  end.

Fixpoint slept (l : list Event) : Z :=
  match l with
  | [] => 0
  | Slept ms :: rest => ms + slept rest
  | _ :: rest => slept rest
  end.

Fixpoint errors_logged (l : list Event) : list Error :=
  match l with
  | [] => []
  | LoggedError _ e :: rest => e :: errors_logged rest
  | _ :: rest => errors_logged rest
  end.

(** Whether the query of iteration [i] finds the transaction confirmed. *)
Definition confirms (node : nat -> Result (option TransactionInfo))
  (i : nat) : bool :=
  match node i with
  | Resolved tx => confirmed tx
  | Rejected _ => false
  end.

(** The first of the iterations [i], [i + 1], ..., [i + n - 1] whose
    query finds the transaction confirmed. *)
Fixpoint first_confirmed (node : nat -> Result (option TransactionInfo))
  (i n : nat) : option nat :=
  match n with
  | O => None
  | S n' => if confirms node i then Some i
            else first_confirmed node (S i) n'
  end.

(** The errors the node rejected the queries [i], ..., [i + n - 1]
    with. *)
Fixpoint rejections (node : nat -> Result (option TransactionInfo))
  (i n : nat) : list Error :=
  match n with
  | O => []
  | S n' =>
      match node i with
      | Rejected e => e :: rejections node (S i) n'
      | Resolved _ => rejections node (S i) n'
      end
  end.

End Confirmation.

(* ================================================================== *)
(** * tronService.js: amounts as text *)

Module Units.







End Units.

Import Units.

(* ================================================================== *)
(** * forwarder.js: state *)

(** The object returned by [loadConfig]. *)
Record Config : Type := mkConfig {
  privateKey : string;
  watchAddress : string;
  destinationAddress : string;
  minAmount : Q;
  reserveAmount : Q;
  checkInterval : Z;
  tronApiKey : option string
}.

(** [this.stats] *)
Record Stats : Type := mkStats {
  transfersCount : nat;
  totalAmount : Q;
  startTime : Z
}.

(** What [setInterval] and [setTimeout] return. *)
Definition Handle := nat.
Bind Scope nat_scope with Handle.

(** The fields of a [TrxForwarder].  [sourceAddress] is what
    [this.tronService.getAddress()] answers, the address TronWeb derives
    from the private key. *)
Record TrxForwarder : Type := mkTrxForwarder {
  cfg : Config;
  sourceAddress : string;
  lastBalance : Q;
  isProcessing : bool;
  checkIntervalId : option Handle;
  stats : Stats
}.

(** [new TrxForwarder(config)], constructed at time [now]. *)
Definition constructor (config : Config) (address : string) (now : Z)
  : TrxForwarder :=
  {| cfg := config;
     sourceAddress := address;
     lastBalance := 0;
     isProcessing := false;
     checkIntervalId := None;
     stats := {| transfersCount := 0; totalAmount := 0; startTime := now |} |}.

Definition set_lastBalance (v : Q) (t : TrxForwarder) : TrxForwarder :=
  {| cfg := t.(cfg); sourceAddress := t.(sourceAddress);
     lastBalance := v;
     isProcessing := t.(isProcessing);
     checkIntervalId := t.(checkIntervalId); stats := t.(stats) |}.

Definition set_isProcessing (v : bool) (t : TrxForwarder) : TrxForwarder :=
  {| cfg := t.(cfg); sourceAddress := t.(sourceAddress);
     lastBalance := t.(lastBalance);
     isProcessing := v;
     checkIntervalId := t.(checkIntervalId); stats := t.(stats) |}.

Definition set_checkIntervalId (v : option Handle) (t : TrxForwarder)
  : TrxForwarder :=
  {| cfg := t.(cfg); sourceAddress := t.(sourceAddress);
     lastBalance := t.(lastBalance);
     isProcessing := t.(isProcessing);
     checkIntervalId := v; stats := t.(stats) |}.

Definition set_stats (v : Stats) (t : TrxForwarder) : TrxForwarder :=
  {| cfg := t.(cfg); sourceAddress := t.(sourceAddress);
     lastBalance := t.(lastBalance);
     isProcessing := t.(isProcessing);
     checkIntervalId := t.(checkIntervalId); stats := v |}.

(** [this.stats.transfersCount++] *)
Definition incr_transfersCount (s : Stats) : Stats :=
  {| transfersCount := S s.(transfersCount);
     totalAmount := s.(totalAmount); startTime := s.(startTime) |}.

(** [this.stats.totalAmount += amount] *)
Definition add_totalAmount (amount : Q) (s : Stats) : Stats :=
  {| transfersCount := s.(transfersCount);
     totalAmount := s.(totalAmount) + amount; startTime := s.(startTime) |}.

(* ================================================================== *)
(** * Asynchronous methods as resumptions *)

(** The two closures the forwarder hands to timers. *)
Inductive Callback : Type :=
| CheckBalanceCb   (* () => this.checkBalance(), line 48 *)
| ResyncCb.        (* the async closure of lines 164-172 *)

(** A method body: the effects it performs on [this], the logger, the
    clock and the timers, and the [TronService] calls it awaits. *)
Inductive Prog (A : Type) : Type :=
| Ret (a : A)
| Throw (e : Error)
| GetThis (k : TrxForwarder -> Prog A)
| SetThis (t : TrxForwarder) (k : Prog A)
| Say (ev : LogEvent) (k : Prog A)
| DateNow (k : Z -> Prog A)
| SetInterval (cb : Callback) (delay : Z) (k : Handle -> Prog A)
| ClearInterval (h : Handle) (k : Prog A)
| SetTimeout (cb : Callback) (delay : Z) (k : Prog A)
| AwaitGetBalance (address : string) (k : Result Q -> Prog A)
| AwaitSendTrx (toAddress : string) (amount : Q)
               (k : Result TronService.SendResult -> Prog A).
Arguments Ret {A} a.
Arguments Throw {A} e.
Arguments GetThis {A} k.
Arguments SetThis {A} t k.
Arguments Say {A} ev k.
Arguments DateNow {A} k.
Arguments SetInterval {A} cb delay k.
Arguments ClearInterval {A} h k.
Arguments SetTimeout {A} cb delay k.
Arguments AwaitGetBalance {A} address k.
Arguments AwaitSendTrx {A} toAddress amount k.

Fixpoint bind {A B} (p : Prog A) (f : A -> Prog B) : Prog B :=
  match p with
  | Ret a => f a
  | Throw e => Throw e
  | GetThis k => GetThis (fun t => bind (k t) f)
  | SetThis t k => SetThis t (bind k f)
  | Say ev k => Say ev (bind k f)
  | DateNow k => DateNow (fun n => bind (k n) f)
  | SetInterval cb d k => SetInterval cb d (fun h => bind (k h) f)
  | ClearInterval h k => ClearInterval h (bind k f)
  | SetTimeout cb d k => SetTimeout cb d (bind k f)
  | AwaitGetBalance a k => AwaitGetBalance a (fun r => bind (k r) f)
  | AwaitSendTrx a q k => AwaitSendTrx a q (fun r => bind (k r) f)
  end.

(** [try { p } catch (error) { h error }]: the handler also guards every
    continuation of [p] after an [await]. *)
Fixpoint try_catch {A} (p : Prog A) (h : Error -> Prog A) : Prog A :=
  match p with
  | Ret a => Ret a
  | Throw e => h e
  | GetThis k => GetThis (fun t => try_catch (k t) h)
  | SetThis t k => SetThis t (try_catch k h)
  | Say ev k => Say ev (try_catch k h)
  | DateNow k => DateNow (fun n => try_catch (k n) h)
  | SetInterval cb d k => SetInterval cb d (fun x => try_catch (k x) h)
  | ClearInterval x k => ClearInterval x (try_catch k h)
  | SetTimeout cb d k => SetTimeout cb d (try_catch k h)
  | AwaitGetBalance a k => AwaitGetBalance a (fun r => try_catch (k r) h)
  | AwaitSendTrx a q k => AwaitSendTrx a q (fun r => try_catch (k r) h)
  end.

(** [try { p } finally { f }]: [f] runs whether [p] returns or throws, and
    the return or the throw then goes on. *)
Fixpoint try_finally {A} (p : Prog A) (f : Prog unit) : Prog A :=
  match p with
  | Ret a => bind f (fun _ => Ret a)
  | Throw e => bind f (fun _ => Throw e)
  | GetThis k => GetThis (fun t => try_finally (k t) f)
  | SetThis t k => SetThis t (try_finally k f)
  | Say ev k => Say ev (try_finally k f)
  | DateNow k => DateNow (fun n => try_finally (k n) f)
  | SetInterval cb d k => SetInterval cb d (fun x => try_finally (k x) f)
  | ClearInterval x k => ClearInterval x (try_finally k f)
  | SetTimeout cb d k => SetTimeout cb d (try_finally k f)
  | AwaitGetBalance a k => AwaitGetBalance a (fun r => try_finally (k r) f)
  | AwaitSendTrx a q k => AwaitSendTrx a q (fun r => try_finally (k r) f)
  end.

Declare Scope prog_scope.
Delimit Scope prog_scope with prog.
Notation "x <- p ;; k" := (bind p (fun x => k))
  (at level 61, p at next level, right associativity) : prog_scope.
Notation "p ;; k" := (bind p (fun _ => k))
  (at level 61, right associativity) : prog_scope.
Local Open Scope prog_scope.

(** Reading [this.f] and assigning [this.f = v]. *)
Definition this {X} (f : TrxForwarder -> X) : Prog X :=
  GetThis (fun t => Ret (f t)).
Definition assign (upd : TrxForwarder -> TrxForwarder) : Prog unit :=
  GetThis (fun t => SetThis (upd t) (Ret tt)).

(** The logger's methods. *)
Definition logger (type : LogType) (m : Msg) : Prog unit :=
  Say (Log type m) (Ret tt).
Definition logger_error (m : Msg) (e : Error) : Prog unit :=
  Say (LogError m e) (Ret tt).
Definition logger_separator (char : string) : Prog unit :=
  Say (Separator char) (Ret tt).

(** [await this.tronService.getBalance(address)] and
    [await this.tronService.sendTrx(toAddress, amount)]: a rejection is
    thrown at the [await]. *)
Definition settle {A} (r : Result A) : Prog A :=
  match r with Resolved a => Ret a | Rejected e => Throw e end.
Definition await_getBalance (address : string) : Prog Q :=
  AwaitGetBalance address settle.
Definition await_sendTrx (toAddress : string) (amount : Q)
  : Prog TronService.SendResult :=
  AwaitSendTrx toAddress amount settle.

(* ================================================================== *)
(** * forwarder.js: methods *)

(** The closure passed to [setTimeout] at line 164. *)
Definition resync_callback : Prog unit :=
  try_catch
    (watch <- this (fun t => t.(cfg).(watchAddress)) ;;
     newBalance <- await_getBalance watch ;;
     assign (set_lastBalance newBalance) ;;
     logger balance (MsgRemaining newBalance))
    (fun err => logger_error MsgNewBalanceFailed err).

(** [forwardTRX(balance)], lines 117-186.  The two [return]s inside the
    [try] are the two first branches: nothing follows the [try] statement. *)
Definition forwardTRX (balance : Q) : Prog unit :=
  assign (set_isProcessing true) ;;
  try_finally
    (try_catch
       (minAmount <- this (fun t => t.(cfg).(minAmount)) ;;
        if Qltb balance minAmount then
          logger warning (MsgBelowMinimum balance minAmount) ;;
          logger info MsgNotForwarded
        else
          reserveAmount <- this (fun t => t.(cfg).(reserveAmount)) ;;
          let amountToSend := balance - reserveAmount in
          if Qle_bool amountToSend 0 then
            logger warning (MsgNothingLeftAfterReserve reserveAmount)
          else
            logger info MsgRule ;;
            logger transfer MsgPreparing ;;
            logger transfer (MsgPrepBalance balance) ;;
            logger transfer (MsgPrepReserve reserveAmount) ;;
            logger transfer (MsgPrepToSend amountToSend) ;;
            destination <- this (fun t => t.(cfg).(destinationAddress)) ;;
            logger transfer (MsgPrepRecipient destination) ;;
            logger info MsgRule ;;
            result <- await_sendTrx destination amountToSend ;;
            if result.(TronService.sr_success) then
              assign (fun t => set_stats (incr_transfersCount t.(stats)) t) ;;
              assign (fun t =>
                        set_stats (add_totalAmount amountToSend t.(stats)) t) ;;
              logger success MsgForwarded ;;
              logger info MsgRule ;;
              SetTimeout ResyncCb 5000 (Ret tt)
            else
              Ret tt)
       (fun err =>
          logger_error MsgForwardFailed err ;;
          match err.(message) with
          | Some m =>
              if negb (String.eqb m "")
                 && includes m "balance is not sufficient"
              then
                logger error MsgFeeInsufficient ;;
                logger info MsgRaiseReserveHint
              else Ret tt
          | None => Ret tt
          end))
    (assign (set_isProcessing false)).

(** [checkBalance()], lines 75-111. *)
Definition checkBalance : Prog unit :=
  processing <- this isProcessing ;;
  if processing then
    logger warning MsgAlreadyProcessing
  else
    try_catch
      (watch <- this (fun t => t.(cfg).(watchAddress)) ;;
       currentBalance <- await_getBalance watch ;;
       last <- this lastBalance ;;
       if Qltb last currentBalance then
         let receivedAmount := currentBalance - last in
         logger_separator "─" ;;
         logger success MsgNewDeposit ;;
         logger balance (MsgReceived receivedAmount) ;;
         logger balance (MsgNewBalance currentBalance) ;;
         logger_separator "─" ;;
         assign (set_lastBalance currentBalance) ;;
         forwardTRX currentBalance
       else if Qltb currentBalance last then
         logger warning (MsgBalanceDecreased last currentBalance) ;;
         assign (set_lastBalance currentBalance)
       else
         Ret tt)
      (fun err => logger_error MsgCheckFailed err).

(** [displayStats()], lines 191-204. *)
Definition displayStats : Prog unit :=
  now <- DateNow Ret ;;
  s <- this stats ;;
  let runTime := ((now - s.(startTime)) / 1000)%Z in
  let hours := (runTime / 3600)%Z in
  let minutes := (Z.rem runTime 3600 / 60)%Z in
  let seconds := Z.rem runTime 60 in
  logger_separator "═" ;;
  logger info MsgStatsTitle ;;
  logger_separator "─" ;;
  logger info (MsgRunTime hours minutes seconds) ;;
  logger info (MsgTransfersCount s.(transfersCount)) ;;
  logger info (MsgTotalForwarded s.(totalAmount)) ;;
  logger_separator "═".

(** [start()], lines 26-58. *)
Definition start : Prog unit :=
  try_catch
    (logger info MsgStarting ;;
     sourceAddress <- this sourceAddress ;;
     logger info (MsgSourceAddress sourceAddress) ;;
     watch <- this (fun t => t.(cfg).(watchAddress)) ;;
     initialBalance <- await_getBalance watch ;;
     assign (set_lastBalance initialBalance) ;;
     logger balance (MsgInitialBalance initialBalance) ;;
     logger_separator "=" ;;
     logger monitor MsgMonitoringStarted ;;
     interval <- this (fun t => t.(cfg).(checkInterval)) ;;
     logger info (MsgCheckEvery (inject_Z interval / 1000)) ;;
     logger_separator "=" ;;
     id <- SetInterval CheckBalanceCb interval Ret ;;
     assign (set_checkIntervalId (Some id)) ;;
     checkBalance)
    (fun err =>
       logger_error MsgStartFailed err ;;
       Throw err).

(** [stop()], lines 63-70. *)
Definition stop : Prog unit :=
  id <- this checkIntervalId ;;
  match id with
  | Some h =>
      ClearInterval h (Ret tt) ;;
      assign (set_checkIntervalId None) ;;
      logger info MsgMonitoringStopped ;;
      displayStats
  | None => Ret tt
  end.


(** What a timer runs when it fires. *)
Definition callback_body (cb : Callback) : Prog unit :=
  match cb with
  | CheckBalanceCb => checkBalance
  | ResyncCb => resync_callback
  end.

(* ================================================================== *)
(** * The event loop *)

(** A [TronService] call that has been made. *)
Inductive Request : Type :=
| ReqGetBalance (address : string)
| ReqSendTrx (toAddress : string) (amount : Q).

(** An armed timer. *)
Record Timer : Type := mkTimer {
  handle : Handle;
  repeating : bool;        (* [setInterval] or [setTimeout] *)
  callback : Callback
}.

Arguments mkTimer handle%_nat repeating callback.

(** An [async] call suspended at the [await] of a [TronService] call. *)
Inductive Suspended (A : Type) : Type :=
| OnGetBalance (address : string) (k : Result Q -> Prog A)
| OnSendTrx (toAddress : string) (amount : Q)
            (k : Result TronService.SendResult -> Prog A).
Arguments OnGetBalance {A} address k.
Arguments OnSendTrx {A} toAddress amount k.

(** Everything a method body can touch. *)
Record Machine : Type := mkMachine {
  self : TrxForwarder;       (* the forwarder object *)
  clock : Z;                 (* what [Date.now()] answers *)
  timers : list Timer;       (* armed timers *)
  fresh : Handle;            (* the next timer handle *)
  logs : Logs;               (* what the logger has received, oldest first *)
  requests : list Request    (* the service calls made, oldest first *)
}.

Definition with_self (t : TrxForwarder) (m : Machine) : Machine :=
  {| self := t; clock := m.(clock); timers := m.(timers);
     fresh := m.(fresh); logs := m.(logs); requests := m.(requests) |}.

(** The logger receives a line, and several lines one by one. *)
Definition said (ev : LogEvent) (m : Machine) : Machine :=
  {| self := m.(self); clock := m.(clock); timers := m.(timers);
     fresh := m.(fresh); logs := m.(logs) ++ [ev];
     requests := m.(requests) |}.

Definition with_log (l : Logs) (m : Machine) : Machine :=
  fold_left (fun m ev => said ev m) l m.

Definition with_request (r : Request) (m : Machine) : Machine :=
  {| self := m.(self); clock := m.(clock); timers := m.(timers);
     fresh := m.(fresh); logs := m.(logs);
     requests := m.(requests) ++ [r] |}.

Definition arm (rep : bool) (cb : Callback) (m : Machine) : Machine :=
  {| self := m.(self); clock := m.(clock);
     timers := m.(timers) ++ [mkTimer m.(fresh) rep cb];
     fresh := S m.(fresh); logs := m.(logs); requests := m.(requests) |}.

Definition disarm (h : Handle) (m : Machine) : Machine :=
  {| self := m.(self); clock := m.(clock);
     timers := filter (fun t => negb (Nat.eqb t.(handle) h)) m.(timers);
     fresh := m.(fresh); logs := m.(logs); requests := m.(requests) |}.

Definition advance (dt : Z) (m : Machine) : Machine :=
  {| self := m.(self); clock := (m.(clock) + dt)%Z; timers := m.(timers);
     fresh := m.(fresh); logs := m.(logs); requests := m.(requests) |}.

(** How a run of a method body ends: it returns, throws, or is suspended
    at an [await]. *)
Inductive Outcome (A : Type) : Type :=
| Returned (a : A)
| Thrown (e : Error)
| Awaiting (s : Suspended A).
Arguments Returned {A} a.
Arguments Thrown {A} e.
Arguments Awaiting {A} s.

(** Run to completion: a body runs, uninterrupted, to its next [await]. *)
Fixpoint run {A} (p : Prog A) (m : Machine) : Machine * Outcome A :=
  match p with
  | Ret a => (m, Returned a)
  | Throw e => (m, Thrown e)
  | GetThis k => run (k m.(self)) m
  | SetThis t k => run k (with_self t m)
  | Say ev k => run k (said ev m)
  | DateNow k => run (k m.(clock)) m
  | SetInterval cb _ k => run (k m.(fresh)) (arm true cb m)
  | ClearInterval h k => run k (disarm h m)
  | SetTimeout cb _ k => run k (arm false cb m)
  | AwaitGetBalance a k =>
      (with_request (ReqGetBalance a) m, Awaiting (OnGetBalance a k))
  | AwaitSendTrx a q k =>
      (with_request (ReqSendTrx a q) m, Awaiting (OnSendTrx a q k))
  end.

(** What the node answers to a pending service call. *)
Inductive Reply : Type :=
| BalanceReply (node : Result Z)
| SendReply (node : TronService.SubmitReplies).

(** Resume a suspended call with the node's answer: the service method
    logs and settles, and the caller goes on.  [None] if the answer is
    not one to the call that is pending. *)
Definition resume {A} (s : Suspended A) (r : Reply) (m : Machine)
  : option (Machine * Outcome A) :=
  match s, r with
  | OnGetBalance a k, BalanceReply node =>
      let (l, res) := TronService.getBalance node a in
      Some (run (k res) (with_log l m))
  | OnSendTrx a q k, SendReply node =>
      let (l, res) :=
        TronService.sendTrx node (sourceAddress (self m)) a q in
      Some (run (k res) (with_log l m))
  | _, _ => None
  end.

(** One call alone: the replies are fed, in order, to its [await]s.  The
    run stops at an [await] when the replies are used up or do not fit. *)
Fixpoint feed_suspended {A} (s : Suspended A) (replies : list Reply)
  (m : Machine) : Machine * Outcome A :=
  match replies with
  | [] => (m, Awaiting s)
  | r :: rest =>
      match resume s r m with
      | Some (m', Awaiting s') => feed_suspended s' rest m'
      | Some (m', o') => (m', o')
      | None => (m, Awaiting s)
      end
  end.

Definition feed {A} (o : Outcome A) (replies : list Reply) (m : Machine)
  : Machine * Outcome A :=
  match o with
  | Awaiting s => feed_suspended s replies m
  | _ => (m, o)
  end.

Definition exec {A} (p : Prog A) (replies : list Reply) (m : Machine)
  : Machine * Outcome A :=
  let (m', o) := run p m in feed o replies m'.

(** The whole system: the machine, the suspended calls, and the errors
    that left a top-level call ([start()] throws to [main]). *)
Record World : Type := mkWorld {
  machine : Machine;
  pending : list (Suspended unit);
  escaped : list Error
}.

(** What can happen next. *)
Inductive Input : Type :=
| CallStart                              (* main calls start() *)
| CallStop                               (* a signal handler calls stop() *)
| TimerFires (h : Handle)                (* an armed timer fires *)
| Settles (i : nat) (r : Reply)          (* the i-th pending call settles *)
| TimePasses (dt : Z).

Arguments TimerFires h%_nat.
Arguments Settles i%_nat r.

Definition remove_nth {A} (i : nat) (l : list A) : list A :=
  firstn i l ++ skipn (S i) l.

(** File what a top-level call came to. *)
Definition land (w : World) (mo : Machine * Outcome unit)
  (rest : list (Suspended unit)) : World :=
  match mo with
  | (m, Returned _) => mkWorld m rest w.(escaped)
  | (m, Thrown e) => mkWorld m rest (w.(escaped) ++ [e])
  | (m, Awaiting s) => mkWorld m (rest ++ [s]) w.(escaped)
  end.

Definition spawn (p : Prog unit) (w : World) : World :=
  land w (run p w.(machine)) w.(pending).

(** One turn of the event loop; [None] if the input cannot happen. *)
Definition step (w : World) (i : Input) : option World :=
  match i with
  | CallStart => Some (spawn start w)
  | CallStop => Some (spawn stop w)
  | TimerFires h =>
      match find (fun t => Nat.eqb t.(handle) h) w.(machine).(timers) with
      | Some t =>
          let m := if t.(repeating) then w.(machine)
                   else disarm h w.(machine) in
          Some (spawn (callback_body t.(callback))
                      (mkWorld m w.(pending) w.(escaped)))
      | None => None
      end
  | Settles i r =>
      match nth_error w.(pending) i with
      | Some s =>
          match resume s r w.(machine) with
          | Some mo => Some (land w mo (remove_nth i w.(pending)))
          | None => None
          end
      | None => None
      end
  | TimePasses dt =>
      if (0 <=? dt)%Z
      then Some (mkWorld (advance dt w.(machine)) w.(pending) w.(escaped))
      else None
  end.

Fixpoint steps (w : World) (inputs : list Input) : option World :=
  match inputs with
  | [] => Some w
  | i :: rest =>
      match step w i with
      | Some w' => steps w' rest
      | None => None
      end
  end.

(** The forward attempts in flight: the pending [sendTrx] calls. *)
Definition is_send (s : Suspended unit) : bool :=
  match s with OnSendTrx _ _ _ => true | OnGetBalance _ _ => false end.

Definition forwards_in_flight (w : World) : nat :=
  length (filter is_send w.(pending)).

(** The transfers submitted so far. *)
Fixpoint submissions (rs : list Request) : list (string * Q) :=
  match rs with
  | [] => []
  | ReqSendTrx a q :: rest => (a, q) :: submissions rest
  | ReqGetBalance _ :: rest => submissions rest
  end.

(** A freshly constructed forwarder in an idle process. *)
Definition boot (config : Config) (address : string) (now : Z) : Machine :=
  {| self := constructor config address now; clock := now; timers := [];
     fresh := 1%nat; logs := []; requests := [] |}.

Definition init (config : Config) (address : string) (now : Z) : World :=
  mkWorld (boot config address now) [] [].

(* ================================================================== *)
(** * config.js *)

(** [process.env], as [loadConfig] reads it.  The three numeric variables
    are given as [parseFloat] and [parseInt] leave them: [None] is [NaN],
    which is also what an unset variable parses to. *)
Record Env : Type := mkEnv {
  PRIVATE_KEY : option string;
  WATCH_ADDRESS : option string;
  DESTINATION_ADDRESS : option string;
  MIN_AMOUNT : option Q;
  RESERVE_AMOUNT : option Q;
  CHECK_INTERVAL : option Z;
  TRON_API_KEY : option string
}.

(** [address.startsWith('T') && address.length === 34], lines 8-13. *)
Definition isValidTronAddress (address : option string) : bool :=
  match address with
  | None => false
  | Some EmptyString => false
  | Some a => String.prefix "T" a && Nat.eqb (String.length a) 34
  end.

Definition is_hex (c : ascii) : bool :=
  let n := nat_of_ascii c in
  ((48 <=? n) && (n <=? 57) || (97 <=? n) && (n <=? 102)
   || (65 <=? n) && (n <=? 70))%nat.

(** [/^[0-9a-fA-F]{64}$/.test(key)], lines 19-24. *)
Definition isValidPrivateKey (key : option string) : bool :=
  match key with
  | None => false
  | Some EmptyString => false
  | Some k =>
      forallb is_hex (list_ascii_of_string k)
      && Nat.eqb (String.length k) 64
  end.

(** The lines [loadConfig] pushes to [errors]. *)
Inductive ConfigError : Type :=
| PrivateKeyMissing | PrivateKeyMalformed
| WatchAddressMissing | WatchAddressMalformed
| DestinationAddressMissing | DestinationAddressMalformed
| MinAmountNotPositive
| ReserveAmountNegative
| MinAmountNotAboveReserve
| CheckIntervalTooShort.

Definition check_string (v : option string) (valid : option string -> bool)
  (missing malformed : ConfigError) : list ConfigError :=
  if negb (truthy v) then [missing]
  else if negb (valid v) then [malformed]
  else [].

Definition check (failed : bool) (e : ConfigError) : list ConfigError :=
  if failed then [e] else [].

(** [loadConfig()], lines 29-103: the configuration, or the errors it
    prints before [process.exit(1)]. *)
Definition loadConfig (env : Env) : Config + list ConfigError :=
  let minAmount := number_or env.(MIN_AMOUNT) (3 # 2) in
  let reserveAmount := number_or env.(RESERVE_AMOUNT) 1 in
  let checkInterval := integer_or env.(CHECK_INTERVAL) 3000 in
  let tronApiKey := or_else env.(TRON_API_KEY) None in
  let errors :=
    check_string env.(PRIVATE_KEY) isValidPrivateKey
                 PrivateKeyMissing PrivateKeyMalformed
    ++ check_string env.(WATCH_ADDRESS) isValidTronAddress
                    WatchAddressMissing WatchAddressMalformed
    ++ check_string env.(DESTINATION_ADDRESS) isValidTronAddress
                    DestinationAddressMissing DestinationAddressMalformed
    ++ check (isNaN minAmount || Qle_bool minAmount 0) MinAmountNotPositive
    ++ check (isNaN reserveAmount || Qltb reserveAmount 0)
             ReserveAmountNegative
    ++ check (Qle_bool minAmount reserveAmount) MinAmountNotAboveReserve
    ++ check (isNaN checkInterval || (checkInterval <? 1000)%Z)
             CheckIntervalTooShort in
  match errors, env.(PRIVATE_KEY), env.(WATCH_ADDRESS),
        env.(DESTINATION_ADDRESS) with
  | [], Some key, Some watch, Some destination =>
      inl {| privateKey := key;
             watchAddress := watch;
             destinationAddress := destination;
             minAmount := minAmount;
             reserveAmount := reserveAmount;
             checkInterval := checkInterval;
             tronApiKey := tronApiKey |}
  | _, _, _, _ => inr errors
  end.

(* ================================================================== *)
(** * Observations *)

(** What a run has come to, without the continuation of a suspended call. *)
Inductive Status (A : Type) : Type :=
| Done (a : A)
| Failed (e : Error)
| Waiting (r : Request).
Arguments Done {A} a.
Arguments Failed {A} e.
Arguments Waiting {A} r.

Definition status {A} (o : Outcome A) : Status A :=
  match o with
  | Returned a => Done a
  | Thrown e => Failed e
  | Awaiting (OnGetBalance a _) => Waiting (ReqGetBalance a)
  | Awaiting (OnSendTrx a q _) => Waiting (ReqSendTrx a q)
  end.

(** Whether a call is waiting for the node. *)
Definition in_flight {A} (s : Status A) : bool :=
  match s with Waiting _ => true | _ => false end.

(** A call run alone on the given replies: the machine it leaves and
    where it stands. *)
Definition observe {A} (p : Prog A) (replies : list Reply) (m : Machine)
  : Machine * Status A :=
  (fst (exec p replies m), status (snd (exec p replies m))).

(** The replies do not start with an answer to the pending call, which
    is a [sendTrx] if [for_send] and a [getBalance] otherwise. *)
Definition unanswered (for_send : bool) (r : list Reply) : Prop :=
  match r with
  | [] => True
  | BalanceReply _ :: _ => for_send = true
  | SendReply _ :: _ => for_send = false
  end.

(** A body none of whose paths ends in an uncaught [throw]. *)
Fixpoint no_throw {A} (p : Prog A) : Prop :=
  match p with
  | Ret _ => True
  | Throw _ => False
  | GetThis k => forall t, no_throw (k t)
  | SetThis _ k => no_throw k
  | Say _ k => no_throw k
  | DateNow k => forall n, no_throw (k n)
  | SetInterval _ _ k => forall h, no_throw (k h)
  | ClearInterval _ k => no_throw k
  | SetTimeout _ _ k => no_throw k
  | AwaitGetBalance _ k => forall r, no_throw (k r)
  | AwaitSendTrx _ _ k => forall r, no_throw (k r)
  end.

(** [this.f = upd this.f] on the machine. *)
Definition update (upd : TrxForwarder -> TrxForwarder) (m : Machine)
  : Machine :=
  with_self (upd (self m)) m.

(** Whether [sendTrx] throws on these answers of the node. *)
Definition rejects (node : TronService.SubmitReplies)
  (defaultAddress toAddress : string) (amount : Q) : bool :=
  match snd (TronService.sendTrx node defaultAddress toAddress amount) with
  | Rejected _ => true
  | Resolved _ => false
  end.

(** The transaction id a broadcast answer carries:
    [result.txid || result.transaction?.txID]. *)
Definition reported_txid (b : TronService.BroadcastResult) : option string :=
  or_else (TronService.br_txid b)
          (match TronService.br_transaction b with
           | Some t => TronService.txID t
           | None => None
           end).

(** ** What each path of a method makes of the machine *)

(** [forwardTRX(balance)] returning at line 128: the balance is below
    [minAmount]. *)
Definition below_minimum (balance : Q) (m : Machine) : Machine :=
  update (set_isProcessing false)
    (with_log
       [Log warning (MsgBelowMinimum balance (minAmount (cfg (self m))));
        Log info MsgNotForwarded]
       (update (set_isProcessing true) m)).

(** [forwardTRX(balance)] returning at line 138: nothing is left after
    the reserve. *)
Definition nothing_left (m : Machine) : Machine :=
  update (set_isProcessing false)
    (with_log
       [Log warning
            (MsgNothingLeftAfterReserve (reserveAmount (cfg (self m))))]
       (update (set_isProcessing true) m)).

(** [forwardTRX(balance)] waiting at line 150 for [sendTrx]. *)
Definition submitted (balance : Q) (m : Machine) : Machine :=
  let reserve := reserveAmount (cfg (self m)) in
  let destination := destinationAddress (cfg (self m)) in
  with_request (ReqSendTrx destination (balance - reserve))
    (with_log
       [Log info MsgRule;
        Log transfer MsgPreparing;
        Log transfer (MsgPrepBalance balance);
        Log transfer (MsgPrepReserve reserve);
        Log transfer (MsgPrepToSend (balance - reserve));
        Log transfer (MsgPrepRecipient destination);
        Log info MsgRule]
       (update (set_isProcessing true) m)).

(** The lines of 178-181, logged when the error message mentions the
    fee balance. *)
Definition fee_hint (e : Error) : Logs :=
  match message e with
  | Some msg =>
      if negb (String.eqb msg "") && includes msg "balance is not sufficient"
      then [Log error MsgFeeInsufficient; Log info MsgRaiseReserveHint]
      else []
  | None => []
  end.

(** [forwardTRX(balance)] returned, [sendTrx] having logged and settled
    as [outcome] says. *)
Definition settled (balance : Q)
  (outcome : Logs * Result TronService.SendResult) (m : Machine) : Machine :=
  let amountToSend := balance - reserveAmount (cfg (self m)) in
  let heard := with_log (fst outcome) (submitted balance m) in
  match snd outcome with
  | Resolved result =>
      if TronService.sr_success result then
        update (set_isProcessing false)
          (arm false ResyncCb
             (with_log [Log success MsgForwarded; Log info MsgRule]
                (update
                   (fun t =>
                      set_stats
                        (add_totalAmount amountToSend
                           (incr_transfersCount (stats t))) t)
                   heard)))
      else
        update (set_isProcessing false) heard
  | Rejected e =>
      update (set_isProcessing false)
        (with_log (LogError MsgForwardFailed e :: fee_hint e) heard)
  end.

(** [checkBalance()] returning at line 79. *)
Definition skipped (m : Machine) : Machine :=
  said (Log warning MsgAlreadyProcessing) m.

(** [getBalance(watchAddress)] called. *)
Definition polled (m : Machine) : Machine :=
  with_request (ReqGetBalance (watchAddress (cfg (self m)))) m.

(** [checkBalance()] returned at line 110, having caught [e]. *)
Definition check_failed (e : Error) (m : Machine) : Machine :=
  said (LogError MsgCheckFailed e) m.

(** [checkBalance()] at line 100, about to forward [current]. *)
Definition increased (current : Q) (m : Machine) : Machine :=
  update (set_lastBalance current)
    (with_log
       [Separator "─";
        Log success MsgNewDeposit;
        Log balance (MsgReceived (current - lastBalance (self m)));
        Log balance (MsgNewBalance current);
        Separator "─"]
       m).

(** [checkBalance()] returned, the balance having gone down. *)
Definition decreased (current : Q) (m : Machine) : Machine :=
  update (set_lastBalance current)
    (with_log
       [Log warning (MsgBalanceDecreased (lastBalance (self m)) current)]
       m).

(** [checkBalance()] from line 86 on, resumed on machine [m] with what
    [getBalance] settled to: the machine it leaves and where it stands,
    the forward attempt being fed [replies]. *)
Definition check_resumed (r : Result Q) (replies : list Reply) (m : Machine)
  : Machine * Status unit :=
  match r with
  | Rejected e => (check_failed e m, Done tt)
  | Resolved currentBalance =>
      if Qltb (lastBalance (self m)) currentBalance
      then observe (forwardTRX currentBalance) replies
                   (increased currentBalance m)
      else if Qltb currentBalance (lastBalance (self m))
      then (decreased currentBalance m, Done tt)
      else (m, Done tt)
  end.

(** [start()] waiting at line 35 for the first balance. *)
Definition greeted (m : Machine) : Machine :=
  polled
    (with_log
       [Log info MsgStarting;
        Log info (MsgSourceAddress (sourceAddress (self m)))]
       m).

(** [start()] having thrown [e], the first read having failed. *)
Definition start_failed (e : Error) (m : Machine) : Machine :=
  with_log
    [LogError (MsgGetBalanceFailed (watchAddress (cfg (self m)))) e;
     LogError MsgStartFailed e]
    (greeted m).

(** [start()] at line 53, about to make the first check. *)
Definition started (initialBalance : Q) (m : Machine) : Machine :=
  update (set_checkIntervalId (Some (fresh m)))
    (arm true CheckBalanceCb
       (with_log
          [Log balance (MsgInitialBalance initialBalance);
           Separator "=";
           Log monitor MsgMonitoringStarted;
           Log info
               (MsgCheckEvery
                  (inject_Z (checkInterval (cfg (self m))) / 1000));
           Separator "="]
          (update (set_lastBalance initialBalance) (greeted m)))).

(** What [displayStats()] logs. *)
Definition stats_lines (m : Machine) : Logs :=
  let s := stats (self m) in
  let runTime := ((clock m - startTime s) / 1000)%Z in
  [Separator "═";
   Log info MsgStatsTitle;
   Separator "─";
   Log info (MsgRunTime (runTime / 3600) (Z.rem runTime 3600 / 60)
                        (Z.rem runTime 60));
   Log info (MsgTransfersCount (transfersCount s));
   Log info (MsgTotalForwarded (totalAmount s));
   Separator "═"].

(** [stop()] returned, the interval [h] having been armed. *)
Definition stopped (h : Handle) (m : Machine) : Machine :=
  with_log (Log info MsgMonitoringStopped :: stats_lines m)
    (update (set_checkIntervalId None) (disarm h m)).

(** ** The deferred resync *)

(** The resync closure returned, having read [newBalance]. *)
Definition resynced (newBalance : Q) (m : Machine) : Machine :=
  said (Log balance (MsgRemaining newBalance))
    (update (set_lastBalance newBalance) (polled m)).

(** The resync closure returned, its read having failed with [e]. *)
Definition resync_failed (e : Error) (m : Machine) : Machine :=
  with_log
    [LogError (MsgGetBalanceFailed (watchAddress (cfg (self m)))) e;
     LogError MsgNewBalanceFailed e]
    (polled m).

(* ================================================================== *)
(** * Turns

    A call runs in turns: from where it is called to its first [await],
    and then from each answer of the node to the next [await] or to its
    end.  Between two turns of a call, other calls take theirs on the same
    forwarder. *)

(** Where a turn of a call begins. *)
Inductive Origin : Type :=
| Called
| Answered (req : Request) (reply : Reply).

Record Turn (A : Type) : Type := mkTurn {
  origin : Origin;
  before : Machine;
  after : Machine;
  ending : Status A
}.
Arguments mkTurn {A} origin before after ending.
Arguments origin {A} t.
Arguments before {A} t.
Arguments after {A} t.
Arguments ending {A} t.

Definition request_of {A} (s : Suspended A) : Request :=
  match s with
  | OnGetBalance a _ => ReqGetBalance a
  | OnSendTrx a q _ => ReqSendTrx a q
  end.

(** [every_turn P p o m0 m]: [P] holds of the turn that began at [m0]
    from [o], has come to [m] and goes on as [p], and of every later turn
    of [p], whatever the node answers and whatever the machine has become
    by then. *)
Fixpoint every_turn {A} (P : Turn A -> Prop) (p : Prog A) (o : Origin)
  (m0 m : Machine) : Prop :=
  match p with
  | Ret a => P (mkTurn o m0 m (Done a))
  | Throw e => P (mkTurn o m0 m (Failed e))
  | GetThis k => every_turn P (k (self m)) o m0 m
  | SetThis t k => every_turn P k o m0 (with_self t m)
  | Say ev k => every_turn P k o m0 (said ev m)
  | DateNow k => every_turn P (k (clock m)) o m0 m
  | SetInterval cb _ k => every_turn P (k (fresh m)) o m0 (arm true cb m)
  | ClearInterval h k => every_turn P k o m0 (disarm h m)
  | SetTimeout cb _ k => every_turn P k o m0 (arm false cb m)
  | AwaitGetBalance a k =>
      P (mkTurn o m0 (with_request (ReqGetBalance a) m)
                (Waiting (ReqGetBalance a)))
      /\ forall node m1,
           every_turn P (k (snd (TronService.getBalance node a)))
                      (Answered (ReqGetBalance a) (BalanceReply node)) m1
                      (with_log (fst (TronService.getBalance node a)) m1)
  | AwaitSendTrx a q k =>
      P (mkTurn o m0 (with_request (ReqSendTrx a q) m)
                (Waiting (ReqSendTrx a q)))
      /\ forall node m1,
           every_turn P
             (k (snd (TronService.sendTrx node (sourceAddress (self m1)) a q)))
             (Answered (ReqSendTrx a q) (SendReply node)) m1
             (with_log
                (fst (TronService.sendTrx node (sourceAddress (self m1)) a q))
                m1)
  end.

(** A suspended call all of whose turns to come satisfy [P]. *)
Definition tame {A} (P : Turn A -> Prop) (s : Suspended A) : Prop :=
  match s with
  | OnGetBalance a k =>
      forall node m1,
        every_turn P (k (snd (TronService.getBalance node a)))
                   (Answered (ReqGetBalance a) (BalanceReply node)) m1
                   (with_log (fst (TronService.getBalance node a)) m1)
  | OnSendTrx a q k =>
      forall node m1,
        every_turn P
          (k (snd (TronService.sendTrx node (sourceAddress (self m1)) a q)))
          (Answered (ReqSendTrx a q) (SendReply node)) m1
          (with_log
             (fst (TronService.sendTrx node (sourceAddress (self m1)) a q))
             m1)
  end.

Definition tame_outcome {A} (P : Turn A -> Prop) (o : Outcome A) : Prop :=
  match o with Awaiting s => tame P s | _ => True end.

(** How the world files what a turn came to. *)
Definition filed (w w' : World) (rest : list (Suspended unit))
  (st : Status unit) : Prop :=
  match st with
  | Done _ => pending w' = rest /\ escaped w' = escaped w
  | Failed e => pending w' = rest /\ escaped w' = escaped w ++ [e]
  | Waiting r =>
      (exists s, pending w' = rest ++ [s] /\ request_of s = r)
      /\ escaped w' = escaped w
  end.

Definition tamed (P : Turn unit -> Prop) (w : World) : Prop :=
  Forall (tame P) (pending w).

(** A turn of the world. *)
Inductive Step_turn (P : Turn unit -> Prop) (w w' : World) : Input -> Prop :=
| turn_call (i : Input) (t : Turn unit) :
    (i = CallStart \/ i = CallStop) ->
    P t -> origin t = Called -> before t = machine w ->
    after t = machine w' -> filed w w' (pending w) (ending t) ->
    Step_turn P w w' i
| turn_timer (h : Handle) (tm : Timer) (t : Turn unit) :
    find (fun t => Nat.eqb (handle t) h) (timers (machine w)) = Some tm ->
    P t -> origin t = Called ->
    before t = (if repeating tm then machine w else disarm h (machine w)) ->
    after t = machine w' -> filed w w' (pending w) (ending t) ->
    Step_turn P w w' (TimerFires h)
| turn_settles (i : nat) (r : Reply) (s : Suspended unit) (t : Turn unit) :
    nth_error (pending w) i = Some s ->
    P t -> origin t = Answered (request_of s) r -> before t = machine w ->
    after t = machine w' ->
    filed w w' (remove_nth i (pending w)) (ending t) ->
    Step_turn P w w' (Settles i r)
| turn_time (dt : Z) :
    (0 <= dt)%Z ->
    w' = mkWorld (advance dt (machine w)) (pending w) (escaped w) ->
    Step_turn P w w' (TimePasses dt).

(** ** What a turn of the forwarder keeps to *)

(** The request a turn ends on, if it ends on one. *)
Definition asked {A} (st : Status A) : list Request :=
  match st with Waiting r => [r] | _ => [] end.

(** The requests a forwarder configured with [c] may make: a balance read
    of the watched address, or a transfer to the destination of a balance
    that reaches [minAmount], less the reserve, and positive. *)
Definition allowed (c : Config) (r : Request) : Prop :=
  match r with
  | ReqGetBalance a => a = watchAddress c
  | ReqSendTrx a q =>
      a = destinationAddress c
      /\ 0 < q
      /\ exists b, q = b - reserveAmount c /\ minAmount c <= b
  end.

(** The forward failures the log reports (line 175). *)
Fixpoint failures (l : Logs) : nat :=
  match l with
  | [] => 0
  | LogError MsgForwardFailed _ :: rest => S (failures rest)
  | _ :: rest => failures rest
  end.

(** Whether a turn begins at the answer to a submitted transfer. *)
Definition settles_send (o : Origin) : bool :=
  match o with Answered (ReqSendTrx _ _) _ => true | _ => false end.

(** [lastBalance] in a turn: the balance the node has just answered, or
    what it was. *)
Definition tracks (o : Origin) (m0 m : Machine) : Prop :=
  match o with
  | Answered (ReqGetBalance _) (BalanceReply (Resolved sun)) =>
      lastBalance (self m) == TronService.fromSun sun
  | _ => lastBalance (self m) = lastBalance (self m0)
  end.

(** What every turn of the forwarder's calls keeps to. *)
Record Lawful (t : Turn unit) : Prop := mkLawful {
  law_cfg : cfg (self (after t)) = cfg (self (before t));
  law_source : sourceAddress (self (after t)) = sourceAddress (self (before t));
  law_startTime :
    startTime (stats (self (after t))) = startTime (stats (self (before t)));
  law_clock : clock (after t) = clock (before t);
  law_requests : requests (after t) = requests (before t) ++ asked (ending t);
  law_allowed : Forall (allowed (cfg (self (before t)))) (asked (ending t));
  law_logs : exists l, logs (after t) = logs (before t) ++ l;
  law_stats :
    settles_send (origin t) = false ->
    stats (self (after t)) = stats (self (before t))
    /\ failures (logs (after t)) = failures (logs (before t));
  law_settled :
    forall a q r, origin t = Answered (ReqSendTrx a q) r ->
      ending t = Done tt
      /\ isProcessing (self (after t)) = false
      /\ ((stats (self (after t)) =
           add_totalAmount q (incr_transfersCount (stats (self (before t))))
           /\ failures (logs (after t)) = failures (logs (before t)))
          \/ (stats (self (after t)) = stats (self (before t))
              /\ failures (logs (after t)) = S (failures (logs (before t)))));
  law_flag :
    isProcessing (self (after t)) = true ->
    (exists a q, ending t = Waiting (ReqSendTrx a q))
    \/ (isProcessing (self (before t)) = true
        /\ settles_send (origin t) = false);
  law_submit :
    forall a q, ending t = Waiting (ReqSendTrx a q) ->
      exists watch sun,
        origin t = Answered (ReqGetBalance watch) (BalanceReply (Resolved sun))
        /\ lastBalance (self (before t)) < TronService.fromSun sun
        /\ minAmount (cfg (self (before t))) <= TronService.fromSun sun
        /\ q = TronService.fromSun sun - reserveAmount (cfg (self (before t)))
        /\ lastBalance (self (after t)) = TronService.fromSun sun;
  law_failed :
    forall e, ending t = Failed e ->
      In (LogError MsgStartFailed e) (logs (after t))
      /\ exists a,
           origin t = Answered (ReqGetBalance a) (BalanceReply (Rejected e));
  law_lastBalance : tracks (origin t) (before t) (after t)
}.

(** What has happened so far in a turn that has made no request and has
    touched neither the stats nor the flag. *)
Record Quiet (o : Origin) (m0 m : Machine) : Prop := mkQuiet {
  quiet_cfg : cfg (self m) = cfg (self m0);
  quiet_source : sourceAddress (self m) = sourceAddress (self m0);
  quiet_stats : stats (self m) = stats (self m0);
  quiet_clock : clock m = clock m0;
  quiet_requests : requests m = requests m0;
  quiet_logs : exists l, logs m = logs m0 ++ l;
  quiet_failures : failures (logs m) = failures (logs m0);
  quiet_flag : isProcessing (self m) = isProcessing (self m0);
  quiet_origin : settles_send o = false;
  quiet_lastBalance : tracks o m0 m
}.

(** ** What every reachable world satisfies *)

Definition is_submit (r : Request) : bool :=
  match r with ReqSendTrx _ _ => true | ReqGetBalance _ => false end.

(** The requests the pending calls wait for. *)
Definition waiting_for (w : World) : list Request :=
  map request_of (pending w).

(** The sum of the amounts of transfers. *)
Fixpoint amounts (l : list (string * Q)) : Q :=
  match l with
  | [] => 0
  | (_, q) :: rest => q + amounts rest
  end.

(** What holds of every world a forwarder constructed from [config] at
    time [now] can come to. *)
Record Sound (config : Config) (address : string) (now : Z) (w : World)
  : Prop := mkSound {
  sound_cfg : cfg (self (machine w)) = config;
  sound_source : sourceAddress (self (machine w)) = address;
  sound_startTime : startTime (stats (self (machine w))) = now;
  sound_clock : (now <= clock (machine w))%Z;
  sound_requests : Forall (allowed config) (requests (machine w));
  sound_waiting : Forall (allowed config) (waiting_for w);
  sound_count :
    length (submissions (requests (machine w))) =
    (transfersCount (stats (self (machine w))) + forwards_in_flight w
     + failures (logs (machine w)))%nat;
  sound_total :
    totalAmount (stats (self (machine w)))
    + amounts (submissions (waiting_for w))
    <= amounts (submissions (requests (machine w)));
  sound_flag :
    isProcessing (self (machine w)) = true -> (1 <= forwards_in_flight w)%nat;
  sound_escaped :
    Forall (fun e => In (LogError MsgStartFailed e) (logs (machine w)))
           (escaped w);
  sound_pending : tamed Lawful w
}.

(* ================================================================== *)
(** * A session to run the model on *)

Module Session.

Definition key : string :=
  "0123456789abcdef0123456789abcdef0123456789ABCDEF0123456789ABCDEF".
Definition watch : string := "TWatchAddressxxxxxxxxxxxxxxxxxxxxx".
Definition destination : string := "TDestinationAddressxxxxxxxxxxxxxxx".
Definition source : string := "TSourceAddressxxxxxxxxxxxxxxxxxxxx".

(** A [.env] file that only sets the three required variables. *)
Definition env : Env :=
  {| PRIVATE_KEY := Some key;
     WATCH_ADDRESS := Some watch;
     DESTINATION_ADDRESS := Some destination;
     MIN_AMOUNT := None; RESERVE_AMOUNT := None; CHECK_INTERVAL := None;
     TRON_API_KEY := None |}.

(** What [loadConfig] makes of it: [minAmount] 1.5, [reserveAmount] 1. *)
Definition config : Config :=
  {| privateKey := key; watchAddress := watch;
     destinationAddress := destination;
     minAmount := 3 # 2; reserveAmount := 1; checkInterval := 3000;
     tronApiKey := None |}.

(** The forwarder of [main], constructed at time 0. *)
Definition world0 : World := init config source 0.

(** A machine whose forwarder last saw [last] TRX and is not forwarding. *)
Definition idle (last : Q) : Machine :=
  with_self (set_lastBalance last (constructor config source 0))
            (boot config source 0).

Definition tx (id : string) : TronService.Transaction :=
  TronService.mkTransaction (Some id).

(** A node that accepts the transfer and reports its id. *)
Definition accepted : TronService.SubmitReplies :=
  {| TronService.on_build := fun _ _ _ => Resolved (tx "a1b2");
     TronService.on_sign := fun t => Resolved t;
     TronService.on_broadcast := fun s =>
       Resolved (TronService.mkBroadcastResult true (TronService.txID s)
                                               (Some s) None) |}.

(** A node that refuses to build the transfer for want of fee balance. *)
Definition refused : TronService.SubmitReplies :=
  {| TronService.on_build := fun _ _ _ =>
       Rejected (mkError (Some "Validate error: balance is not sufficient"));
     TronService.on_sign := fun t => Resolved t;
     TronService.on_broadcast := fun s =>
       Resolved (TronService.mkBroadcastResult true (TronService.txID s)
                                               (Some s) None) |}.


(** The balance answers of the node, in SUN. *)
Definition sun (trx : Z) : Reply := BalanceReply (Resolved (trx * 1000000)%Z).

(** The world once [start()] has read a balance of 10, armed the timer
    and made its first check, which found the balance unchanged. *)
Definition running : World :=
  mkWorld (polled (started 10 (boot config source 0))) [] [].

(** The schedule on which two forwards overlap: [start()] arms the timer
    and makes its first check; the timer fires before that check's balance
    read has come back, so a second check passes the [isProcessing] test
    too; the first read answers 12, the second 13. *)
Definition overlapping_reads : list Input :=
  [CallStart;
   Settles 0 (sun 10);   (* initial balance: 10 *)
   TimerFires 1;         (* second check, the first one pending *)
   Settles 0 (sun 12);   (* first check: 10 -> 12, forwards 11 *)
   Settles 0 (sun 13)].  (* second check: 12 -> 13, forwards 12 *)

End Session.

(* ================================================================== *)
(** * Further inputs to run the model on *)

Module Scenario.

(** A [.env] file whose three numeric variables are set to zero. *)
Definition zeros : Env :=
  {| PRIVATE_KEY := Some Session.key;
     WATCH_ADDRESS := Some Session.watch;
     DESTINATION_ADDRESS := Some Session.destination;
     MIN_AMOUNT := Some 0; RESERVE_AMOUNT := Some 0;
     CHECK_INTERVAL := Some 0%Z;
     TRON_API_KEY := None |}.

(** A [.env] file with no key, a watch address that is too short, a
    negative reserve and an interval of half a second. *)
Definition broken : Env :=
  {| PRIVATE_KEY := None;
     WATCH_ADDRESS := Some "TShort";
     DESTINATION_ADDRESS := Some Session.destination;
     MIN_AMOUNT := None; RESERVE_AMOUNT := Some (-2);
     CHECK_INTERVAL := Some 500%Z;
     TRON_API_KEY := None |}.

(** Five past nine in the morning, and half a minute. *)
Definition morning : Logger.Clock :=
  Logger.mkClock 9 5 30 "2024-01-01T09:05:30.000Z".

(** Nothing printed, nothing written. *)
Definition blank : Logger.Sinks := Logger.mkSinks [] [].

(** A node whose first query fails, whose second finds the transaction
    without a result yet, and which reports it confirmed from the third
    on. *)
Definition third_time (i : nat)
  : Result (option Confirmation.TransactionInfo) :=
  match i with
  | O => Rejected (new_Error "timeout")
  | S O => Resolved (Some (Confirmation.mkTransactionInfo None))
  | _ =>
      Resolved (Some (Confirmation.mkTransactionInfo
                        (Some [Confirmation.mkRetEntry (Some "SUCCESS")])))
  end.

(** A node that does not know the transaction. *)
Definition unknown (i : nat)
  : Result (option Confirmation.TransactionInfo) := Resolved None.

(** [start()] has read a balance of 10 and its first check waits for its
    read. *)
Definition first_check : list Input := [CallStart; Settles 0 (Session.sun 10)].

(** The first check has read 12 and submitted a transfer of 11. *)
Definition forwarding : list Input :=
  [CallStart; Settles 0 (Session.sun 10); Settles 0 (Session.sun 12)].

End Scenario.

(* ================================================================== *)
(** * Properties *)

(** ** Numbers *)

Lemma Qltb_lt a b : Qltb a b = true <-> a < b.
Proof.
  unfold Qltb. rewrite Qlt_alt. destruct (a ?= b); split; congruence.
Qed.

Lemma Qltb_ge a b : Qltb a b = false <-> b <= a.
Proof.
  unfold Qltb. rewrite Qge_alt. destruct (a ?= b); split; congruence.
Qed.

Lemma Qle_bool_gt a b : Qle_bool a b = false <-> b < a.
Proof.
  split; intros H.
  - apply Qnot_le_lt. intros L. apply Qle_bool_iff in L. congruence.
  - destruct (Qle_bool a b) eqn:E; [| reflexivity].
    apply Qle_bool_iff in E. exfalso. apply (Qlt_not_le _ _ H E).
Qed.

(** ** What logging leaves alone *)

Section WithLog.

Variable l : Logs.

Lemma self_with_log m : self (with_log l m) = self m.
Proof.
  revert m. induction l as [| ev l' IH]; intros m; [reflexivity |].
  exact (IH (said ev m)).
Qed.

Lemma clock_with_log m : clock (with_log l m) = clock m.
Proof.
  revert m. induction l as [| ev l' IH]; intros m; [reflexivity |].
  exact (IH (said ev m)).
Qed.

Lemma timers_with_log m : timers (with_log l m) = timers m.
Proof.
  revert m. induction l as [| ev l' IH]; intros m; [reflexivity |].
  exact (IH (said ev m)).
Qed.

Lemma fresh_with_log m : fresh (with_log l m) = fresh m.
Proof.
  revert m. induction l as [| ev l' IH]; intros m; [reflexivity |].
  exact (IH (said ev m)).
Qed.

Lemma requests_with_log m : requests (with_log l m) = requests m.
Proof.
  revert m. induction l as [| ev l' IH]; intros m; [reflexivity |].
  exact (IH (said ev m)).
Qed.

Lemma logs_with_log m : logs (with_log l m) = logs m ++ l.
Proof.
  revert m. induction l as [| ev l' IH]; intros m; cbn.
  - now rewrite app_nil_r.
  - change (logs (with_log l' (said ev m)) = logs m ++ ev :: l').
    rewrite IH. cbn. now rewrite <- app_assoc.
Qed.

End WithLog.

Create Rewrite HintDb machine.

#[local] Hint Rewrite self_with_log clock_with_log timers_with_log
  fresh_with_log requests_with_log logs_with_log : machine.

(** ** The equations of [exec] *)

Section ExecEquations.

Context {A : Type}.
Implicit Types (r : list Reply) (m : Machine).

Lemma exec_Ret (a : A) r m : exec (Ret a) r m = (m, Returned a).
Proof. reflexivity. Qed.

Lemma exec_Throw e r m : exec (@Throw A e) r m = (m, Thrown e).
Proof. reflexivity. Qed.

Lemma exec_GetThis (k : TrxForwarder -> Prog A) r m :
  exec (GetThis k) r m = exec (k (self m)) r m.
Proof. reflexivity. Qed.

Lemma exec_SetThis t (k : Prog A) r m :
  exec (SetThis t k) r m = exec k r (with_self t m).
Proof. reflexivity. Qed.

Lemma exec_Say ev (k : Prog A) r m :
  exec (Say ev k) r m = exec k r (said ev m).
Proof. reflexivity. Qed.

Lemma exec_DateNow (k : Z -> Prog A) r m :
  exec (DateNow k) r m = exec (k (clock m)) r m.
Proof. reflexivity. Qed.

Lemma exec_SetInterval cb d (k : Handle -> Prog A) r m :
  exec (SetInterval cb d k) r m = exec (k (fresh m)) r (arm true cb m).
Proof. reflexivity. Qed.

Lemma exec_ClearInterval h (k : Prog A) r m :
  exec (ClearInterval h k) r m = exec k r (disarm h m).
Proof. reflexivity. Qed.

Lemma exec_SetTimeout cb d (k : Prog A) r m :
  exec (SetTimeout cb d k) r m = exec k r (arm false cb m).
Proof. reflexivity. Qed.

Lemma feed_suspended_cons (s : Suspended A) x r m :
  feed_suspended s (x :: r) m =
  match resume s x m with
  | Some (m', o') => feed o' r m'
  | None => (m, Awaiting s)
  end.
Proof.
  cbn [feed_suspended]. destruct (resume s x m) as [[m' [a | e | s']] |];
    reflexivity.
Qed.

Lemma exec_AwaitGetBalance a (k : Result Q -> Prog A) node r m :
  exec (AwaitGetBalance a k) (BalanceReply node :: r) m =
  exec (k (snd (TronService.getBalance node a))) r
       (with_log (fst (TronService.getBalance node a))
                 (with_request (ReqGetBalance a) m)).
Proof.
  unfold exec at 1. cbn [run feed]. rewrite feed_suspended_cons.
  cbn [resume]. destruct (TronService.getBalance node a) as [l res].
  reflexivity.
Qed.

Lemma exec_AwaitSendTrx a q (k : Result TronService.SendResult -> Prog A)
      node r m :
  exec (AwaitSendTrx a q k) (SendReply node :: r) m =
  exec (k (snd (TronService.sendTrx node (sourceAddress (self m)) a q))) r
       (with_log (fst (TronService.sendTrx node (sourceAddress (self m)) a q))
                 (with_request (ReqSendTrx a q) m)).
Proof.
  unfold exec at 1. cbn [run feed]. rewrite feed_suspended_cons.
  cbn [resume self with_request].
  destruct (TronService.sendTrx node (sourceAddress (self m)) a q)
    as [l res].
  reflexivity.
Qed.

(** A call whose reply has not come, or is not one to it, stays put. *)
Lemma exec_AwaitGetBalance_pending a (k : Result Q -> Prog A) r m :
  unanswered false r ->
  exec (AwaitGetBalance a k) r m =
  (with_request (ReqGetBalance a) m, Awaiting (OnGetBalance a k)).
Proof. destruct r as [| [node | node] r]; cbn; congruence || reflexivity. Qed.

Lemma exec_AwaitSendTrx_pending a q
      (k : Result TronService.SendResult -> Prog A) r m :
  unanswered true r ->
  exec (AwaitSendTrx a q k) r m =
  (with_request (ReqSendTrx a q) m, Awaiting (OnSendTrx a q k)).
Proof. destruct r as [| [node | node] r]; cbn; congruence || reflexivity. Qed.

End ExecEquations.

Lemma run_exec {A} (p : Prog A) m : run p m = exec p [] m.
Proof. unfold exec. destruct (run p m) as [m' [a | e | s]]; reflexivity. Qed.

(** Symbolic execution: normalise the program and the machine's fields,
    then take steps of [exec] by its equations. *)
Ltac prog_norm :=
  cbn [bind try_catch try_finally this assign logger logger_error
       logger_separator settle await_getBalance await_sendTrx
       self clock timers fresh logs requests
       cfg sourceAddress lastBalance isProcessing checkIntervalId stats
       privateKey watchAddress destinationAddress minAmount reserveAmount
       checkInterval tronApiKey transfersCount totalAmount startTime
       with_self said with_request arm disarm advance update
       set_lastBalance set_isProcessing set_checkIntervalId set_stats
       incr_transfersCount add_totalAmount fst snd
       TronService.sr_success TronService.sr_txid TronService.sr_amount
       TronService.sr_toAddress message status].

Ltac exec_step :=
  first [ rewrite exec_GetThis | rewrite exec_SetThis | rewrite exec_Say
        | rewrite exec_DateNow | rewrite exec_SetInterval
        | rewrite exec_ClearInterval | rewrite exec_SetTimeout
        | rewrite exec_AwaitGetBalance | rewrite exec_AwaitSendTrx
        | rewrite exec_AwaitGetBalance_pending by (exact I || reflexivity)
        | rewrite exec_AwaitSendTrx_pending by (exact I || reflexivity)
        | rewrite exec_Ret | rewrite exec_Throw ].

Ltac symex :=
  repeat (prog_norm; exec_step);
  repeat (prog_norm; progress autorewrite with machine);
  prog_norm.

(** Unfold the path-wise descriptions of the machine. *)
Ltac paths :=
  unfold below_minimum, nothing_left, settled, fee_hint, submitted, skipped,
    check_failed, increased, decreased, start_failed, started, greeted,
    stopped, polled, update.

(** ** Bodies that do not throw *)

Lemma no_throw_bind {A B} (p : Prog A) (f : A -> Prog B) :
  no_throw p -> (forall a, no_throw (f a)) -> no_throw (bind p f).
Proof.
  intros Hp Hf. induction p; cbn in *; auto; contradiction.
Qed.

Lemma no_throw_try_catch {A} (p : Prog A) (h : Error -> Prog A) :
  (forall e, no_throw (h e)) -> no_throw (try_catch p h).
Proof. intros Hh. induction p; cbn; auto. Qed.

Lemma no_throw_try_finally {A} (p : Prog A) (f : Prog unit) :
  no_throw p -> no_throw f -> no_throw (try_finally p f).
Proof.
  intros Hp Hf. induction p; cbn in *; auto; try contradiction.
  apply no_throw_bind; cbn; auto.
Qed.

(** A body that does not throw never leaves a thrown error, whatever the
    node replies. *)
Lemma no_throw_exec {A} (p : Prog A) :
  no_throw p ->
  forall replies m e, snd (exec p replies m) <> Thrown e.
Proof.
  induction p as [a | e0 | k IH | t k IH | ev k IH | k IH | cb d k IH
                  | h k IH | cb d k IH | a k IH | a q k IH];
    cbn [no_throw]; intros Hp replies m e.
  - discriminate.
  - contradiction.
  - rewrite exec_GetThis. now apply IH.
  - rewrite exec_SetThis. now apply IH.
  - rewrite exec_Say. now apply IH.
  - rewrite exec_DateNow. now apply IH.
  - rewrite exec_SetInterval. now apply IH.
  - rewrite exec_ClearInterval. now apply IH.
  - rewrite exec_SetTimeout. now apply IH.
  - destruct replies as [| [node | node] rest].
    + rewrite exec_AwaitGetBalance_pending by exact I. discriminate.
    + rewrite exec_AwaitGetBalance. now apply IH.
    + rewrite exec_AwaitGetBalance_pending by reflexivity. discriminate.
  - destruct replies as [| [node | node] rest].
    + rewrite exec_AwaitSendTrx_pending by exact I. discriminate.
    + rewrite exec_AwaitSendTrx_pending by reflexivity. discriminate.
    + rewrite exec_AwaitSendTrx. now apply IH.
Qed.

(** A handler around a body that does not throw changes nothing that can
    be observed. *)
Lemma observe_try_catch {A} (p : Prog A) (h : Error -> Prog A) :
  no_throw p ->
  forall replies m, observe (try_catch p h) replies m = observe p replies m.
Proof.
  unfold observe.
  induction p as [a | e0 | k IH | t k IH | ev k IH | k IH | cb d k IH
                  | x k IH | cb d k IH | a k IH | a q k IH];
    cbn [no_throw try_catch]; intros Hp replies m.
  - reflexivity.
  - contradiction.
  - rewrite !exec_GetThis. now apply IH.
  - rewrite !exec_SetThis. now apply IH.
  - rewrite !exec_Say. now apply IH.
  - rewrite !exec_DateNow. now apply IH.
  - rewrite !exec_SetInterval. now apply IH.
  - rewrite !exec_ClearInterval. now apply IH.
  - rewrite !exec_SetTimeout. now apply IH.
  - destruct replies as [| [node | node] rest].
    + now rewrite !exec_AwaitGetBalance_pending by exact I.
    + rewrite !exec_AwaitGetBalance. now apply IH.
    + now rewrite !exec_AwaitGetBalance_pending by reflexivity.
  - destruct replies as [| [node | node] rest].
    + now rewrite !exec_AwaitSendTrx_pending by exact I.
    + now rewrite !exec_AwaitSendTrx_pending by reflexivity.
    + rewrite !exec_AwaitSendTrx. now apply IH.
Qed.

(** ** [forwardTRX] *)

Lemma forwardTRX_no_throw (balance : Q) : no_throw (forwardTRX balance).
Proof.
  unfold forwardTRX. cbn [bind assign no_throw]. intros t.
  apply no_throw_try_finally; [| cbn; auto].
  apply no_throw_try_catch. intros e. cbn.
  destruct (message e) as [msg |]; [| exact I].
  destruct (negb _ && _); cbn; exact I.
Qed.

(** Every path of a forward attempt run alone. *)
Lemma forwardTRX_observe (m : Machine) (b : Q) (replies : list Reply) :
  observe (forwardTRX b) replies m =
  if Qltb b (minAmount (cfg (self m))) then (below_minimum b m, Done tt)
  else if Qle_bool (b - reserveAmount (cfg (self m))) 0
  then (nothing_left m, Done tt)
  else match replies with
       | SendReply node :: _ =>
           (settled b
              (TronService.sendTrx node (sourceAddress (self m))
                                   (destinationAddress (cfg (self m)))
                                   (b - reserveAmount (cfg (self m)))) m,
            Done tt)
       | _ =>
           (submitted b m,
            Waiting (ReqSendTrx (destinationAddress (cfg (self m)))
                                (b - reserveAmount (cfg (self m)))))
       end.
Proof.
  unfold observe, forwardTRX. paths. symex.
  destruct (Qltb b (minAmount (cfg (self m)))); symex; [reflexivity |].
  destruct (Qle_bool (b - reserveAmount (cfg (self m))) 0); symex;
    [reflexivity |].
  destruct replies as [| [node | node] rest]; symex; try reflexivity.
  destruct (TronService.sendTrx _ _ _ _) as [l [[[] id amt to] | e]]; symex;
    [reflexivity | reflexivity |].
  destruct (message e) as [msg |]; symex; [| reflexivity].
  destruct (negb _ && _); symex; reflexivity.
Qed.

Lemma submissions_app (l1 l2 : list Request) :
  submissions (l1 ++ l2) = submissions l1 ++ submissions l2.
Proof.
  induction l1 as [| [a | a q] l1 IH]; simpl; [reflexivity | exact IH |].
  now rewrite IH.
Qed.

(** Read a field off a machine described path-wise. *)
Ltac project :=
  paths;
  repeat (prog_norm; progress autorewrite with machine);
  prog_norm; rewrite <- ?app_assoc; cbn [app].

Lemma requests_settled b o m :
  requests (settled b o m) = requests (submitted b m).
Proof.
  destruct o as [l [[[] id amt to] | e]]; unfold settled; cbn [fst snd];
    project; reflexivity.
Qed.

Lemma isProcessing_settled b o m :
  isProcessing (self (settled b o m)) = false.
Proof.
  destruct o as [l [[[] id amt to] | e]]; unfold settled; cbn [fst snd];
    project; reflexivity.
Qed.

Lemma lastBalance_settled b o m :
  lastBalance (self (settled b o m)) = lastBalance (self m).
Proof.
  destruct o as [l [[[] id amt to] | e]]; unfold settled; cbn [fst snd];
    project; reflexivity.
Qed.

Lemma stats_settled_rejected b l e m :
  stats (self (settled b (l, Rejected e) m)) = stats (self m).
Proof. unfold settled; cbn [fst snd]; project; reflexivity. Qed.

Lemma timers_settled_rejected b l e m :
  timers (settled b (l, Rejected e) m) = timers m.
Proof. unfold settled; cbn [fst snd]; project; reflexivity. Qed.



(** C1.  A forward attempt on a balance [b] with [minAmount <= b] and
    [0 < b - reserveAmount] submits exactly one transfer, of
    [b - reserveAmount], to [destinationAddress], whatever the node then
    answers. *)
Theorem forwardTRX_submits_exactly_once
  (m : Machine) (b : Q) (replies : list Reply) :
  minAmount (cfg (self m)) <= b ->
  0 < b - reserveAmount (cfg (self m)) ->
  submissions (requests (fst (observe (forwardTRX b) replies m))) =
  submissions (requests m)
  ++ [(destinationAddress (cfg (self m)), b - reserveAmount (cfg (self m)))].
Proof.
  intros Hmin Hpos.
  apply Qltb_ge in Hmin. apply Qle_bool_gt in Hpos.
  rewrite forwardTRX_observe, Hmin, Hpos.
  destruct replies as [| [node | node] rest]; cbn [fst];
    rewrite ?requests_settled; project; apply submissions_app.
Qed.

Lemma forwardTRX_submits_exactly_once_witness :
  submissions
    (requests (fst (observe (forwardTRX 12) [SendReply Session.accepted]
                            (Session.idle 12)))) =
  [(Session.destination, 12 - 1)].
Proof.
  apply (forwardTRX_submits_exactly_once
           (Session.idle 12) 12 [SendReply Session.accepted]).
  - unfold Qle; simpl; lia.
  - unfold Qlt; simpl; lia.
Defined.

(** Scenario 2 of the specification: last balance 10, the poll reads 12,
    [minAmount] 1.5, [reserveAmount] 1: a transfer of 11 goes to the
    destination, and on success the stats count one transfer of 11. *)
Example scenario_poll_12 :
  let m := fst (exec checkBalance [Session.sun 12; SendReply Session.accepted]
                     (Session.idle 10)) in
  submissions (requests m) = [(Session.destination, 11)]
  /\ transfersCount (stats (self m)) = 1%nat
  /\ totalAmount (stats (self m)) = 11.
Proof. vm_compute. repeat split. Qed.

(** C3.  A forward attempt on a balance below [minAmount] submits no
    transfer, logs the below-minimum warning, leaves the stats alone, and
    returns. *)
Theorem forwardTRX_below_minimum
  (m : Machine) (b : Q) (replies : list Reply) :
  b < minAmount (cfg (self m)) ->
  snd (observe (forwardTRX b) replies m) = Done tt
  /\ requests (fst (observe (forwardTRX b) replies m)) = requests m
  /\ logs (fst (observe (forwardTRX b) replies m)) =
     logs m ++ [Log warning (MsgBelowMinimum b (minAmount (cfg (self m))));
                Log info MsgNotForwarded]
  /\ stats (self (fst (observe (forwardTRX b) replies m))) = stats (self m).
Proof.
  intros Hlow. apply Qltb_lt in Hlow.
  rewrite forwardTRX_observe, Hlow. cbn [fst snd]. project.
  repeat split.
Qed.

Lemma forwardTRX_below_minimum_witness :
  snd (observe (forwardTRX (1 # 2)) [] (Session.idle (1 # 2))) = Done tt
  /\ requests (fst (observe (forwardTRX (1 # 2)) [] (Session.idle (1 # 2))))
     = []
  /\ logs (fst (observe (forwardTRX (1 # 2)) [] (Session.idle (1 # 2)))) =
     [Log warning (MsgBelowMinimum (1 # 2) (3 # 2)); Log info MsgNotForwarded]
  /\ stats (self (fst (observe (forwardTRX (1 # 2)) []
                               (Session.idle (1 # 2)))))
     = mkStats 0 0 0.
Proof.
  apply (forwardTRX_below_minimum (Session.idle (1 # 2)) (1 # 2) []).
  unfold Qlt; simpl; lia.
Defined.

(** C4.  A forward attempt raises [isProcessing] first thing; the flag is
    up while the attempt waits for its submission and down once it has
    returned, whether it forwarded, found the balance below the minimum,
    found nothing left after the reserve, or saw the submission fail; and
    the attempt never throws. *)
Theorem forwardTRX_guard (m : Machine) (b : Q) (replies : list Reply) :
  (exists body,
      forwardTRX b = (assign (set_isProcessing true) ;; body)%prog)
  /\ isProcessing (self (fst (observe (forwardTRX b) replies m))) =
     in_flight (snd (observe (forwardTRX b) replies m))
  /\ (forall e, snd (observe (forwardTRX b) replies m) <> Failed e)
  /\ (b < minAmount (cfg (self m)) ->
      snd (observe (forwardTRX b) replies m) = Done tt)
  /\ (minAmount (cfg (self m)) <= b ->
      b - reserveAmount (cfg (self m)) <= 0 ->
      snd (observe (forwardTRX b) replies m) = Done tt)
  /\ (forall node rest,
         snd (observe (forwardTRX b) (SendReply node :: rest) m) = Done tt
         /\ isProcessing
              (self (fst (observe (forwardTRX b) (SendReply node :: rest) m)))
            = false).
Proof.
  split; [eexists; reflexivity |].
  assert (Cases : forall r,
             isProcessing (self (fst (observe (forwardTRX b) r m))) =
             in_flight (snd (observe (forwardTRX b) r m))
             /\ (forall e, snd (observe (forwardTRX b) r m) <> Failed e)
             /\ (forall node rest, r = SendReply node :: rest ->
                   snd (observe (forwardTRX b) r m) = Done tt)).
  { intros r. rewrite forwardTRX_observe.
    destruct (Qltb b (minAmount (cfg (self m))));
      [| destruct (Qle_bool (b - reserveAmount (cfg (self m))) 0);
         [| destruct r as [| [node | node] rest] ]];
      cbn [fst snd in_flight]; rewrite ?isProcessing_settled; project;
      repeat split; intros; discriminate || reflexivity. }
  split; [apply Cases |]. split; [apply Cases |]. split; [| split].
  - intros H. apply Qltb_lt in H. now rewrite forwardTRX_observe, H.
  - intros H1 H2. apply Qltb_ge in H1. apply Qle_bool_iff in H2.
    now rewrite forwardTRX_observe, H1, H2.
  - intros node rest.
    destruct (Cases (SendReply node :: rest)) as (Flag & _ & Done).
    rewrite Flag, (Done node rest eq_refl). now split.
Qed.

(** ** [loadConfig] *)

Lemma check_nil failed e : check failed e = [] -> failed = false.
Proof. destruct failed; [discriminate | reflexivity]. Qed.

(** What [loadConfig] returns has passed the numeric checks of lines
    75-89. *)
Lemma loadConfig_validated (env : Env) (config : Config) :
  loadConfig env = inl config ->
  0 < minAmount config
  /\ 0 <= reserveAmount config
  /\ reserveAmount config < minAmount config
  /\ (1000 <= checkInterval config)%Z.
Proof.
  unfold loadConfig.
  set (mn := number_or (MIN_AMOUNT env) (3 # 2)).
  set (rs := number_or (RESERVE_AMOUNT env) 1).
  set (iv := integer_or (CHECK_INTERVAL env) 3000).
  match goal with
  | |- match ?errs with _ => _ end = _ -> _ => destruct errs eqn:Errors
  end.
  - apply app_eq_nil in Errors as [_ Errors].
    apply app_eq_nil in Errors as [_ Errors].
    apply app_eq_nil in Errors as [_ Errors].
    apply app_eq_nil in Errors as [Emin Errors].
    apply app_eq_nil in Errors as [Eres Errors].
    apply app_eq_nil in Errors as [Eabove Eint].
    apply check_nil in Emin, Eres, Eabove, Eint.
    cbn [isNaN orb] in Emin, Eres, Eint.
    apply Qle_bool_gt in Emin, Eabove. apply Qltb_ge in Eres.
    apply Z.ltb_ge in Eint.
    destruct (PRIVATE_KEY env), (WATCH_ADDRESS env),
      (DESTINATION_ADDRESS env); intros H; inversion H; subst; clear H.
    cbn. auto.
  - destruct (PRIVATE_KEY env), (WATCH_ADDRESS env),
      (DESTINATION_ADDRESS env); discriminate.
Qed.

Example loadConfig_session : loadConfig Session.env = inl Session.config.
Proof. reflexivity. Qed.

(** C9.  For a configuration that [loadConfig] has returned, a balance that
    passes the threshold check leaves a positive amount after the reserve:
    the test of line 134 fails, and the attempt goes on to submit
    [b - reserveAmount] instead of returning at line 138. *)
Theorem reserve_branch_unreachable
  (env : Env) (config : Config) (m : Machine) (b : Q) :
  loadConfig env = inl config ->
  cfg (self m) = config ->
  minAmount config <= b ->
  0 < b - reserveAmount config
  /\ Qle_bool (b - reserveAmount config) 0 = false
  /\ observe (forwardTRX b) [] m =
     (submitted b m,
      Waiting (ReqSendTrx (destinationAddress config)
                          (b - reserveAmount config))).
Proof.
  intros Loaded Cfg Hmin.
  destruct (loadConfig_validated env config Loaded) as (_ & _ & Above & _).
  assert (Pos : 0 < b - reserveAmount config) by lra.
  split; [exact Pos |].
  assert (Test : Qle_bool (b - reserveAmount config) 0 = false)
    by now apply Qle_bool_gt.
  split; [exact Test |].
  apply Qltb_ge in Hmin.
  rewrite forwardTRX_observe, Cfg, Hmin, Test. reflexivity.
Qed.

Lemma reserve_branch_unreachable_witness :
  0 < (3 # 2) - 1
  /\ Qle_bool ((3 # 2) - 1) 0 = false
  /\ observe (forwardTRX (3 # 2)) [] (Session.idle 0) =
     (submitted (3 # 2) (Session.idle 0),
      Waiting (ReqSendTrx Session.destination ((3 # 2) - 1))).
Proof.
  apply (reserve_branch_unreachable
           Session.env Session.config (Session.idle 0) (3 # 2)).
  - reflexivity.
  - reflexivity.
  - unfold Qle; simpl; lia.
Defined.

(** ** [sendTrx] *)

(** [sendTrx] returns only when the three calls resolved and the node
    reported success; it then returns [success: true], the amount, the
    recipient, and the transaction id the broadcast answer carries. *)
Lemma sendTrx_resolved node from toAddress amount l r :
  TronService.sendTrx node from toAddress amount = (l, Resolved r) ->
  TronService.sr_success r = true
  /\ TronService.sr_amount r = amount
  /\ TronService.sr_toAddress r = toAddress
  /\ exists t s b,
       TronService.on_build node toAddress (TronService.toSun amount) from
       = Resolved t
       /\ TronService.on_sign node t = Resolved s
       /\ TronService.on_broadcast node s = Resolved b
       /\ TronService.br_result b = true
       /\ TronService.sr_txid r = reported_txid b.
Proof.
  unfold TronService.sendTrx. cbv zeta.
  destruct (TronService.on_build node _ _ _) as [t | e1] eqn:Built; cbn;
    [| discriminate].
  destruct (TronService.on_sign node t) as [s | e2] eqn:Signed; cbn;
    [| discriminate].
  destruct (TronService.on_broadcast node s) as [b | e3] eqn:Cast; cbn;
    [| discriminate].
  destruct (TronService.br_result b) eqn:Ok; cbn; [| discriminate].
  intros H. inversion H; subst; clear H. cbn.
  repeat split. exists t, s, b. now repeat split.
Qed.





(** ** [checkBalance] and [start] *)

Lemma checkBalance_no_throw : no_throw checkBalance.
Proof.
  unfold checkBalance. cbn [bind this no_throw]. intros t.
  destruct (isProcessing t); [exact I |].
  apply no_throw_try_catch. intros e. exact I.
Qed.

Lemma getBalance_resolved sun a :
  TronService.getBalance (Resolved sun) a =
  ([], Resolved (TronService.fromSun sun)).
Proof. reflexivity. Qed.

Lemma getBalance_rejected e a :
  TronService.getBalance (Rejected e) a =
  ([LogError (MsgGetBalanceFailed a) e], Rejected e).
Proof. reflexivity. Qed.

(** A check that finds no forward being processed calls [getBalance]
    and waits; resumed, on whatever machine, it goes on as [check_resumed]
    tells. *)
Lemma checkBalance_suspends (m : Machine) :
  isProcessing (self m) = false ->
  exists k,
    run checkBalance m =
    (polled m, Awaiting (OnGetBalance (watchAddress (cfg (self m))) k))
    /\ forall r replies m',
         observe (k r) replies m' = check_resumed r replies m'.
Proof.
  intros Idle. rewrite run_exec. unfold checkBalance. symex.
  rewrite Idle. symex. eexists. split; [reflexivity |].
  intros [currentBalance | e] replies m'; unfold observe at 1, check_resumed;
    symex; [| reflexivity].
  destruct (Qltb (lastBalance (self m')) currentBalance); symex.
  - change (fst (exec ?p ?r ?x), status (snd (exec ?p ?r ?x)))
      with (observe p r x).
    rewrite (observe_try_catch _ _ (forwardTRX_no_throw _)).
    reflexivity.
  - destruct (Qltb currentBalance (lastBalance (self m')));
      symex; reflexivity.
Qed.

(** Every path of a check run alone. *)
Lemma checkBalance_observe (m : Machine) (replies : list Reply) :
  observe checkBalance replies m =
  if isProcessing (self m) then (skipped m, Done tt)
  else match replies with
       | BalanceReply node :: rest =>
           let settled := TronService.getBalance node
                            (watchAddress (cfg (self m))) in
           check_resumed (snd settled) rest
                         (with_log (fst settled) (polled m))
       | _ => (polled m, Waiting (ReqGetBalance (watchAddress (cfg (self m)))))
       end.
Proof.
  destruct (isProcessing (self m)) eqn:Idle.
  - unfold observe, checkBalance. symex. rewrite Idle. symex. reflexivity.
  - destruct (checkBalance_suspends m Idle) as (k & Suspends & Resumed).
    unfold observe, exec. rewrite Suspends. cbn [feed].
    destruct replies as [| [node | node] rest]; [reflexivity | | reflexivity].
    rewrite feed_suspended_cons. cbn [resume].
    destruct (TronService.getBalance node _) as [l r]. cbv zeta.
    cbn [fst snd]. rewrite <- Resumed. unfold observe, exec.
    destruct (run (k r) (with_log l (polled m))) as [m' o]. reflexivity.
Qed.

Lemma checkBalance_read (m : Machine) (sun : Z) (rest : list Reply) :
  isProcessing (self m) = false ->
  observe checkBalance (BalanceReply (Resolved sun) :: rest) m =
  check_resumed (Resolved (TronService.fromSun sun)) rest (polled m).
Proof. intros Idle. now rewrite checkBalance_observe, Idle. Qed.

Lemma checkBalance_read_failed (m : Machine) (e : Error) (rest : list Reply) :
  isProcessing (self m) = false ->
  observe checkBalance (BalanceReply (Rejected e) :: rest) m =
  (check_failed e
     (said (LogError (MsgGetBalanceFailed (watchAddress (cfg (self m)))) e)
           (polled m)),
   Done tt).
Proof. intros Idle. now rewrite checkBalance_observe, Idle. Qed.

(** Every path of [start] run alone; once the timer is armed it goes on as
    the first check does. *)
Lemma start_observe (m : Machine) (replies : list Reply) :
  observe start replies m =
  match replies with
  | BalanceReply (Rejected e) :: _ => (start_failed e m, Failed e)
  | BalanceReply (Resolved sun) :: rest =>
      observe checkBalance rest (started (TronService.fromSun sun) m)
  | _ => (greeted m, Waiting (ReqGetBalance (watchAddress (cfg (self m)))))
  end.
Proof.
  unfold start. unfold observe at 1. symex.
  destruct replies as [| [[sun | e] | node] rest]; symex;
    rewrite ?getBalance_resolved, ?getBalance_rejected; symex;
    try reflexivity.
  change (fst (exec ?p ?r ?x), status (snd (exec ?p ?r ?x)))
    with (observe p r x).
  rewrite (observe_try_catch _ _ checkBalance_no_throw).
  reflexivity.
Qed.

Lemma lastBalance_forwardTRX (m : Machine) (b : Q) (replies : list Reply) :
  lastBalance (self (fst (observe (forwardTRX b) replies m))) =
  lastBalance (self m).
Proof.
  rewrite forwardTRX_observe.
  destruct (Qltb b (minAmount (cfg (self m))));
    [| destruct (Qle_bool (b - reserveAmount (cfg (self m))) 0);
       [| destruct replies as [| [node | node] rest] ]];
    cbn [fst]; rewrite ?lastBalance_settled; project; reflexivity.
Qed.





(** The three branches of the comparison on the session:
    10 then 12 (up), 10 then 7 (down), 10 then 10 (unchanged). *)
Example checkBalance_three_branches :
  lastBalance
    (self (fst (observe checkBalance [Session.sun 12] (Session.idle 10)))) = 12
  /\ lastBalance
       (self (fst (observe checkBalance [Session.sun 7] (Session.idle 10))))
     = 7
  /\ lastBalance
       (self (fst (observe checkBalance [Session.sun 10] (Session.idle 10))))
     = 10.
Proof. vm_compute. repeat split. Qed.

Lemma status_failed {A} (o : Outcome A) e :
  status o = Failed e -> o = Thrown e.
Proof.
  destruct o as [a | e' | [a k | a q k]]; cbn; intros H; inversion H.
  reflexivity.
Qed.

(** C7.  If the first balance read fails, [start] logs and throws the
    error to its caller, with no timer armed.  If the balance read of a
    check fails, [checkBalance] logs the error and returns: the forwarder
    and the timers are as they were; and no run of [checkBalance] throws. *)
Theorem read_failure_fatal_at_start_only
  (m : Machine) (e : Error) (rest : list Reply) :
  isProcessing (self m) = false ->
  (snd (observe start (BalanceReply (Rejected e) :: rest) m) = Failed e
   /\ logs (fst (observe start (BalanceReply (Rejected e) :: rest) m)) =
      logs m ++ [Log info MsgStarting;
                 Log info (MsgSourceAddress (sourceAddress (self m)));
                 LogError (MsgGetBalanceFailed (watchAddress (cfg (self m)))) e;
                 LogError MsgStartFailed e]
   /\ timers (fst (observe start (BalanceReply (Rejected e) :: rest) m))
      = timers m
   /\ self (fst (observe start (BalanceReply (Rejected e) :: rest) m))
      = self m)
  /\ (snd (observe checkBalance (BalanceReply (Rejected e) :: rest) m)
      = Done tt
      /\ logs (fst (observe checkBalance
                            (BalanceReply (Rejected e) :: rest) m)) =
         logs m
         ++ [LogError (MsgGetBalanceFailed (watchAddress (cfg (self m)))) e;
             LogError MsgCheckFailed e]
      /\ timers (fst (observe checkBalance
                              (BalanceReply (Rejected e) :: rest) m))
         = timers m
      /\ self (fst (observe checkBalance
                            (BalanceReply (Rejected e) :: rest) m))
         = self m)
  /\ (forall replies e',
         snd (observe checkBalance replies m) <> Failed e').
Proof.
  intros Idle. split; [| split].
  - rewrite start_observe. cbn [fst snd]. project. repeat split.
  - rewrite (checkBalance_read_failed _ _ _ Idle). cbn [fst snd]. project.
    repeat split.
  - intros replies e' Threw. apply status_failed in Threw.
    exact (no_throw_exec _ checkBalance_no_throw replies m e' Threw).
Qed.

Lemma read_failure_fatal_at_start_only_witness :
  snd (observe start [BalanceReply (Rejected (mkError (Some "timeout")))]
               (Session.idle 10))
  = Failed (mkError (Some "timeout"))
  /\ snd (observe checkBalance
                  [BalanceReply (Rejected (mkError (Some "timeout")))]
                  (Session.idle 10))
     = Done tt.
Proof.
  destruct (read_failure_fatal_at_start_only
              (Session.idle 10) (mkError (Some "timeout")) [] eq_refl)
    as [[S _] [[C _] _]].
  split; [exact S | exact C].
Defined.

(** C2 as stated fails where it says that the next tick re-attempts the
    forward: last balance 10, the poll reads 12, the node refuses the transfer of
    11; the next poll reads 12 again and, though the node would now accept,
    nothing is logged and nothing is submitted. *)
Lemma failed_forward_not_retried_example :
  let m1 :=
    fst (observe checkBalance [Session.sun 12; SendReply Session.refused]
                 (Session.idle 10)) in
  let m2 :=
    fst (observe checkBalance [Session.sun 12; SendReply Session.accepted]
                 m1) in
  rejects Session.refused Session.source Session.destination 11 = true
  /\ submissions (requests m1) = [(Session.destination, 11)]
  /\ lastBalance (self m1) = 12
  /\ snd (observe checkBalance [Session.sun 12; SendReply Session.accepted]
                  m1) = Done tt
  /\ logs m2 = logs m1
  /\ submissions (requests m2) = [(Session.destination, 11)]
  /\ stats (self m2) = mkStats 0 0 0.
Proof. vm_compute. repeat split. Qed.

(** C2, amended.  When a check finds the balance up and the submission
    of the forward fails, the stats are not incremented and the forward
    attempt leaves [lastBalance] alone; but [checkBalance] has set
    [lastBalance] to the balance read before it made the attempt, so the
    next check that reads the same balance finds it unchanged: it logs
    nothing and attempts no forward. *)
Theorem failed_forward_not_retried
  (m : Machine) (sun : Z) (node : TronService.SubmitReplies)
  (rest : list Reply) :
  let current := TronService.fromSun sun in
  let attempt := forwardTRX current in
  let m1 :=
    fst (observe checkBalance [BalanceReply (Resolved sun); SendReply node]
                 m) in
  let m2 :=
    fst (observe checkBalance (BalanceReply (Resolved sun) :: rest) m1) in
  isProcessing (self m) = false ->
  lastBalance (self m) < current ->
  minAmount (cfg (self m)) <= current ->
  0 < current - reserveAmount (cfg (self m)) ->
  rejects node (sourceAddress (self m)) (destinationAddress (cfg (self m)))
          (current - reserveAmount (cfg (self m))) = true ->
  stats (self m1) = stats (self m)
  /\ (forall m0 replies,
         lastBalance (self (fst (observe attempt replies m0))) =
         lastBalance (self m0))
  /\ lastBalance (self m1) = current
  /\ isProcessing (self m1) = false
  /\ snd (observe checkBalance (BalanceReply (Resolved sun) :: rest) m1)
     = Done tt
  /\ logs m2 = logs m1
  /\ submissions (requests m2) = submissions (requests m1)
  /\ self m2 = self m1.
Proof.
  intros current attempt m1 m2 Idle Up Hmin Hpos Refused.
  assert (Run1 :
    observe checkBalance [BalanceReply (Resolved sun); SendReply node] m =
    (settled current
       (TronService.sendTrx node (sourceAddress (self m))
                            (destinationAddress (cfg (self m)))
                            (current - reserveAmount (cfg (self m))))
       (increased current (polled m)), Done tt)).
  { rewrite (checkBalance_read _ _ _ Idle). unfold check_resumed.
    fold current.
    replace (lastBalance (self (polled m))) with (lastBalance (self m))
      by reflexivity.
    apply Qltb_lt in Up. rewrite Up.
    rewrite forwardTRX_observe.
    replace (cfg (self (increased current (polled m))))
      with (cfg (self m)) by (project; reflexivity).
    apply Qltb_ge in Hmin. apply Qle_bool_gt in Hpos.
    rewrite Hmin, Hpos. reflexivity. }
  unfold rejects in Refused.
  destruct (TronService.sendTrx node _ _ _) as [l [r | e]] eqn:Sent;
    [discriminate |].
  assert (Last1 : lastBalance (self m1) = current).
  { subst m1. rewrite Run1. cbn [fst].
    rewrite lastBalance_settled. project. reflexivity. }
  assert (Flag1 : isProcessing (self m1) = false).
  { subst m1. rewrite Run1. cbn [fst]. apply isProcessing_settled. }
  assert (Run2 :
    observe checkBalance (BalanceReply (Resolved sun) :: rest) m1 =
    (polled m1, Done tt)).
  { rewrite (checkBalance_read _ _ _ Flag1). unfold check_resumed.
    fold current.
    replace (lastBalance (self (polled m1))) with (lastBalance (self m1))
      by reflexivity.
    rewrite Last1.
    replace (Qltb current current) with false; [reflexivity |].
    symmetry. apply Qltb_ge. apply Qle_refl. }
  split.
  { subst m1. rewrite Run1. cbn [fst].
    rewrite stats_settled_rejected. project. reflexivity. }
  split; [intros m0 replies; apply lastBalance_forwardTRX |].
  split; [exact Last1 |]. split; [exact Flag1 |].
  subst m2. rewrite Run2. cbn [fst snd]. project. repeat split.
  rewrite submissions_app. cbn. apply app_nil_r.
Qed.

Lemma failed_forward_not_retried_witness :
  let m1 :=
    fst (observe checkBalance [Session.sun 12; SendReply Session.refused]
                 (Session.idle 10)) in
  stats (self m1) = mkStats 0 0 0
  /\ lastBalance (self m1) = TronService.fromSun 12000000
  /\ submissions
       (requests (fst (observe checkBalance [Session.sun 12] m1)))
     = submissions (requests m1).
Proof.
  destruct (failed_forward_not_retried
              (Session.idle 10) 12000000 Session.refused []) as
    (Stats & _ & Last & _ & _ & _ & Subs & _).
  - reflexivity.
  - unfold Qlt; simpl; lia.
  - unfold Qle; simpl; lia.
  - unfold Qlt; simpl; lia.
  - reflexivity.
  - cbv zeta. split; [exact Stats |]. split; [exact Last | exact Subs].
Defined.

(** ** The event loop *)

Lemma run_checkBalance_processing (m : Machine) :
  isProcessing (self m) = true ->
  run checkBalance m = (skipped m, Returned tt).
Proof.
  intros Busy. rewrite run_exec. unfold checkBalance. symex.
  rewrite Busy. symex. reflexivity.
Qed.

(** A check that starts while a forward is being processed only logs that
    it skips: no balance is read, no call is left pending, and the
    forwarder (last balance, stats, flag) is as it was. *)
Lemma checkBalance_skips_while_processing (w : World) (h : Handle) :
  isProcessing (self (machine w)) = true ->
  find (fun t => Nat.eqb (handle t) h) (timers (machine w)) =
  Some (mkTimer h true CheckBalanceCb) ->
  step w (TimerFires h) =
  Some (mkWorld (skipped (machine w)) (pending w) (escaped w))
  /\ requests (skipped (machine w)) = requests (machine w)
  /\ self (skipped (machine w)) = self (machine w)
  /\ logs (skipped (machine w)) =
     logs (machine w) ++ [Log warning MsgAlreadyProcessing].
Proof.
  intros Busy Armed. split; [| now repeat split].
  unfold step. rewrite Armed. cbn [repeating callback callback_body].
  unfold spawn. cbn [machine pending escaped].
  now rewrite (run_checkBalance_processing _ Busy).
Qed.

Lemma machine_land (w : World) (mo : Machine * Outcome unit)
      (rest : list (Suspended unit)) :
  machine (land w mo rest) = fst mo.
Proof. destruct mo as [m [[] | e | s]]; reflexivity. Qed.

(** Whatever has run between a check's call of [getBalance] and its
    answer, the turn in which the read settles leaves [lastBalance] at the
    balance read. *)
Lemma check_read_settles (w : World) (i : nat) (m0 : Machine)
      (s : Suspended unit) (sun : Z) :
  snd (run checkBalance m0) = Awaiting s ->
  nth_error (pending w) i = Some s ->
  exists w',
    step w (Settles i (BalanceReply (Resolved sun))) = Some w'
    /\ lastBalance (self (machine w')) == TronService.fromSun sun.
Proof.
  intros Suspended Pending.
  destruct (isProcessing (self m0)) eqn:Idle.
  { rewrite (run_checkBalance_processing _ Idle) in Suspended.
    discriminate Suspended. }
  destruct (checkBalance_suspends m0 Idle) as (k & Suspends & Resumed).
  rewrite Suspends in Suspended. cbn [snd] in Suspended.
  inversion Suspended; subst s; clear Suspended.
  cbn [step]. rewrite Pending. cbn [resume].
  rewrite getBalance_resolved. eexists. split; [reflexivity |].
  rewrite machine_land. cbn [with_log fold_left].
  rewrite run_exec.
  change (fst (exec ?p ?r ?x)) with (fst (observe p r x)).
  rewrite Resumed. unfold check_resumed.
  destruct (Qltb (lastBalance (self (machine w))) (TronService.fromSun sun))
    eqn:Up.
  - rewrite lastBalance_forwardTRX. project. reflexivity.
  - destruct (Qltb (TronService.fromSun sun) (lastBalance (self (machine w))))
      eqn:Down; project; [reflexivity |].
    apply Qltb_ge in Up, Down. now apply Qle_antisym.
Qed.

(** C5.  On [Session.overlapping_reads] two forward attempts are in flight at
    once: both transfers have been submitted and neither has settled. *)
Theorem two_forwards_in_flight :
  option_map forwards_in_flight (steps Session.world0 Session.overlapping_reads)
  = Some 2%nat
  /\ option_map (fun w => submissions (requests (machine w)))
                (steps Session.world0 Session.overlapping_reads)
     = Some [(Session.destination, 11); (Session.destination, 12)]
  /\ option_map (fun w => isProcessing (self (machine w)))
                (steps Session.world0 Session.overlapping_reads)
     = Some true.
Proof. vm_compute. repeat split. Qed.

(** ** [stop] *)

Lemma run_stop (m : Machine) :
  run stop m =
  match checkIntervalId (self m) with
  | Some h => (stopped h m, Returned tt)
  | None => (m, Returned tt)
  end.
Proof.
  rewrite run_exec. unfold stop, displayStats. symex.
  destruct (checkIntervalId (self m)) as [h |]; symex; reflexivity.
Qed.

Lemma find_disarmed (h : Handle) (l : list Timer) :
  find (fun t => Nat.eqb (handle t) h)
       (filter (fun t => negb (Nat.eqb (handle t) h)) l) = None.
Proof.
  induction l as [| t l IH]; [reflexivity |]. cbn [filter].
  destruct (Nat.eqb (handle t) h) eqn:E; cbn [negb]; [exact IH |].
  cbn [find]. now rewrite E.
Qed.

Lemma steps_stop_again (w : World) (n : nat) :
  checkIntervalId (self (machine w)) = None ->
  steps w (repeat CallStop n) = Some w.
Proof.
  intros Off. induction n as [| n IH]; [reflexivity |].
  cbn [repeat steps step]. unfold spawn. rewrite run_stop, Off.
  cbn [land]. destruct w as [m p x]. exact IH.
Qed.

(** C8.  With the timer armed, the first [stop()] disarms it, logs that
    monitoring has stopped and the stats, and throws nothing; any number
    of further [stop()]s leave the world as it is (nothing logged, nothing
    thrown), and the timer cannot fire any more. *)
Theorem stop_idempotent (w : World) (h : Handle) (n : nat) :
  checkIntervalId (self (machine w)) = Some h ->
  exists w1,
    step w CallStop = Some w1
    /\ timers (machine w1) =
       filter (fun t => negb (Nat.eqb (handle t) h)) (timers (machine w))
    /\ step w1 (TimerFires h) = None
    /\ logs (machine w1) =
       logs (machine w)
       ++ Log info MsgMonitoringStopped :: stats_lines (machine w)
    /\ escaped w1 = escaped w
    /\ steps w1 (repeat CallStop n) = Some w1
    /\ steps w (CallStop :: repeat CallStop n) = step w CallStop.
Proof.
  intros On.
  exists (mkWorld (stopped h (machine w)) (pending w) (escaped w)).
  assert (First : step w CallStop =
                  Some (mkWorld (stopped h (machine w)) (pending w)
                                (escaped w))).
  { cbn [step]. unfold spawn. now rewrite run_stop, On. }
  assert (Again : steps (mkWorld (stopped h (machine w)) (pending w)
                                 (escaped w)) (repeat CallStop n) =
                  Some (mkWorld (stopped h (machine w)) (pending w)
                                (escaped w))).
  { apply steps_stop_again. cbn [machine]. project. reflexivity. }
  split; [exact First |].
  split; [cbn [machine]; project; reflexivity |].
  split.
  { cbn [step machine]. project. now rewrite find_disarmed. }
  split; [cbn [machine]; project; reflexivity |].
  split; [reflexivity |].
  split; [exact Again |].
  cbn [steps]. rewrite First. exact Again.
Qed.

Lemma stop_idempotent_witness :
  exists w1,
    step Session.running CallStop = Some w1
    /\ timers (machine w1) =
       filter (fun t => negb (Nat.eqb (handle t) 1%nat))
              (timers (machine Session.running))
    /\ step w1 (TimerFires 1) = None
    /\ logs (machine w1) =
       logs (machine Session.running)
       ++ Log info MsgMonitoringStopped
          :: stats_lines (machine Session.running)
    /\ escaped w1 = escaped Session.running
    /\ steps w1 (repeat CallStop 3) = Some w1
    /\ steps Session.running (CallStop :: repeat CallStop 3)
       = step Session.running CallStop.
Proof. apply (stop_idempotent Session.running 1 3). reflexivity. Defined.

(** [Session.running] is where [main] stands once [start()] has returned. *)
Example session_running :
  steps Session.world0
        [CallStart; Settles 0 (Session.sun 10); Settles 0 (Session.sun 10)]
  = Some Session.running.
Proof. vm_compute. reflexivity. Qed.

(** Scenario 6 of the specification: after a successful transfer at
    balance 20 the deferred resync fires, reads the balance again and
    overwrites [lastBalance] with it. *)
Example scenario_resync :
  option_map (fun w => (lastBalance (self (machine w)),
                        transfersCount (stats (self (machine w))),
                        timers (machine w)))
    (steps Session.running
           [TimerFires 1;
            Settles 0 (Session.sun 20);
            Settles 0 (SendReply Session.accepted);
            TimerFires 2;
            Settles 0 (Session.sun 1)])
  = Some (1, 1%nat, [mkTimer 1 true CheckBalanceCb]).
Proof. vm_compute. reflexivity. Qed.

(* ================================================================== *)
(** * Further properties *)

(** ** [loadConfig]: what it accepts and what it reports *)

Lemma app_nil_iff {A} (l l' : list A) : l ++ l' = [] <-> l = [] /\ l' = [].
Proof.
  split; [apply app_eq_nil | intros [-> ->]; reflexivity].
Qed.

Lemma check_string_nil v valid missing malformed :
  check_string v valid missing malformed = [] <->
  truthy v = true /\ valid v = true.
Proof.
  unfold check_string. destruct (truthy v); cbn;
    [| split; [discriminate | intros [? _]; discriminate]].
  destruct (valid v); cbn; split; auto; try discriminate.
  intros [_ ?]; discriminate.
Qed.

Lemma check_nil_iff failed e : check failed e = [] <-> failed = false.
Proof. destruct failed; cbn; split; auto; discriminate. Qed.

Lemma in_check e failed e' : In e (check failed e') <-> failed = true /\ e' = e.
Proof.
  unfold check. destruct failed; cbn; intuition; discriminate.
Qed.

Lemma in_check_string e v valid missing malformed :
  In e (check_string v valid missing malformed) <->
  (truthy v = false /\ missing = e)
  \/ (truthy v = true /\ valid v = false /\ malformed = e).
Proof.
  unfold check_string. destruct (truthy v), (valid v); cbn;
    intuition; discriminate.
Qed.

(** The numbers of a configuration [loadConfig] returns are those of the
    environment, with the defaults filled in. *)
Lemma loadConfig_numbers (env : Env) (config : Config) :
  loadConfig env = inl config ->
  minAmount config = number_or (MIN_AMOUNT env) (3 # 2)
  /\ reserveAmount config = number_or (RESERVE_AMOUNT env) 1
  /\ checkInterval config = integer_or (CHECK_INTERVAL env) 3000.
Proof.
  unfold loadConfig.
  match goal with
  | |- match ?errs with _ => _ end = _ -> _ => destruct errs
  end;
    destruct (PRIVATE_KEY env), (WATCH_ADDRESS env),
      (DESTINATION_ADDRESS env); intros H; inversion H; subst; clear H.
  cbn. auto.
Qed.

(** X1.  [loadConfig] returns a configuration exactly when every check of
    lines 56-89 passes: the three strings are set, the key satisfies
    [isValidPrivateKey] and both addresses [isValidTronAddress], and, with
    the defaults filled in, [0 < minAmount], [0 <= reserveAmount],
    [reserveAmount < minAmount] and [1000 <= checkInterval].  The
    configuration is then the environment with the defaults filled in. *)
Theorem loadConfig_accepts_iff (env : Env) (config : Config) :
  loadConfig env = inl config <->
  PRIVATE_KEY env = Some (privateKey config)
  /\ isValidPrivateKey (PRIVATE_KEY env) = true
  /\ WATCH_ADDRESS env = Some (watchAddress config)
  /\ isValidTronAddress (WATCH_ADDRESS env) = true
  /\ DESTINATION_ADDRESS env = Some (destinationAddress config)
  /\ isValidTronAddress (DESTINATION_ADDRESS env) = true
  /\ minAmount config = number_or (MIN_AMOUNT env) (3 # 2)
  /\ reserveAmount config = number_or (RESERVE_AMOUNT env) 1
  /\ checkInterval config = integer_or (CHECK_INTERVAL env) 3000
  /\ tronApiKey config = or_else (TRON_API_KEY env) None
  /\ 0 < minAmount config
  /\ 0 <= reserveAmount config
  /\ reserveAmount config < minAmount config
  /\ (1000 <= checkInterval config)%Z.
Proof.
  unfold loadConfig.
  set (mn := number_or (MIN_AMOUNT env) (3 # 2)).
  set (rs := number_or (RESERVE_AMOUNT env) 1).
  set (iv := integer_or (CHECK_INTERVAL env) 3000).
  set (errors := _ ++ _).
  assert (Clean : errors = [] <->
            (truthy (PRIVATE_KEY env) = true
             /\ isValidPrivateKey (PRIVATE_KEY env) = true)
            /\ (truthy (WATCH_ADDRESS env) = true
                /\ isValidTronAddress (WATCH_ADDRESS env) = true)
            /\ (truthy (DESTINATION_ADDRESS env) = true
                /\ isValidTronAddress (DESTINATION_ADDRESS env) = true)
            /\ 0 < mn /\ 0 <= rs /\ rs < mn /\ (1000 <= iv)%Z).
  { unfold errors.
    rewrite !app_nil_iff, !check_string_nil, !check_nil_iff.
    cbn [isNaN orb].
    rewrite !Qle_bool_gt, Qltb_ge, Z.ltb_ge. tauto. }
  split.
  - destruct errors as [| e errs].
    + destruct Clean as [Clean _]. specialize (Clean eq_refl).
      destruct Clean
        as ((K1 & K2) & (W1 & W2) & (D1 & D2) & Mn & Rs & Ab & Iv).
      destruct (PRIVATE_KEY env) as [k |]; [| discriminate].
      destruct (WATCH_ADDRESS env) as [wa |]; [| discriminate].
      destruct (DESTINATION_ADDRESS env) as [da |]; [| discriminate].
      intros E. inversion E; subst config; clear E. cbn.
      repeat split; auto.
    + destruct (PRIVATE_KEY env), (WATCH_ADDRESS env),
        (DESTINATION_ADDRESS env); discriminate.
  - intros (K & Kv & W & Wv & D & Dv & Mn & Rs & Iv & Api & P1 & P2 & P3 & P4).
    assert (Ok : errors = []).
    { apply Clean. rewrite <- Mn, <- Rs, <- Iv.
      repeat split; auto.
      - rewrite K in *. now destruct (privateKey config).
      - rewrite W in *. now destruct (watchAddress config).
      - rewrite D in *. now destruct (destinationAddress config). }
    rewrite Ok, K, W, D. f_equal. destruct config; cbn in *. congruence.
Qed.

(** X2.  A zero in the environment counts as unset: in a configuration
    [loadConfig] returns, [RESERVE_AMOUNT=0] has given the default reserve
    1, [MIN_AMOUNT=0] the default 1.5 and [CHECK_INTERVAL=0] the default
    3000.  So the reserve of a configuration it returns is never zero. *)
Theorem loadConfig_zero_is_default (env : Env) (config : Config) :
  loadConfig env = inl config ->
  0 < reserveAmount config
  /\ (forall v, RESERVE_AMOUNT env = Some v -> v == 0 ->
                reserveAmount config = 1)
  /\ (forall v, MIN_AMOUNT env = Some v -> v == 0 ->
                minAmount config = 3 # 2)
  /\ (CHECK_INTERVAL env = Some 0%Z -> checkInterval config = 3000%Z).
Proof.
  intros Loaded.
  destruct (loadConfig_validated _ _ Loaded) as (_ & NonNeg & _).
  destruct (loadConfig_numbers _ _ Loaded) as (Mn & Rs & Iv).
  split.
  - rewrite Rs in *. unfold number_or in *.
    destruct (RESERVE_AMOUNT env) as [v |]; [| reflexivity].
    destruct (Qeq_bool v 0) eqn:Zero; [reflexivity |].
    apply Qeq_bool_neq in Zero. lra.
  - split; [| split].
    + intros v E Z. rewrite Rs, E. unfold number_or.
      apply Qeq_bool_iff in Z. now rewrite Z.
    + intros v E Z. rewrite Mn, E. unfold number_or.
      apply Qeq_bool_iff in Z. now rewrite Z.
    + intros E. now rewrite Iv, E.
Qed.

Lemma loadConfig_zero_is_default_witness :
  loadConfig Scenario.zeros = inl Session.config
  /\ 0 < reserveAmount Session.config
  /\ (forall v, RESERVE_AMOUNT Scenario.zeros = Some v -> v == 0 ->
                reserveAmount Session.config = 1)
  /\ (forall v, MIN_AMOUNT Scenario.zeros = Some v -> v == 0 ->
                minAmount Session.config = 3 # 2)
  /\ (CHECK_INTERVAL Scenario.zeros = Some 0%Z ->
      checkInterval Session.config = 3000%Z).
Proof.
  split; [reflexivity |].
  apply (loadConfig_zero_is_default Scenario.zeros Session.config).
  reflexivity.
Defined.

(** X3.  When [loadConfig] refuses the environment it reports every check
    that failed, not only the first one: each error is in the list exactly
    when its check fails, and the list is never empty. *)
Theorem loadConfig_reports_every_failed_check
  (env : Env) (errors : list ConfigError) :
  let minAmount := number_or (MIN_AMOUNT env) (3 # 2) in
  let reserveAmount := number_or (RESERVE_AMOUNT env) 1 in
  let checkInterval := integer_or (CHECK_INTERVAL env) 3000 in
  loadConfig env = inr errors ->
  errors <> []
  /\ (In PrivateKeyMissing errors <-> truthy (PRIVATE_KEY env) = false)
  /\ (In PrivateKeyMalformed errors <->
      truthy (PRIVATE_KEY env) = true
      /\ isValidPrivateKey (PRIVATE_KEY env) = false)
  /\ (In WatchAddressMissing errors <-> truthy (WATCH_ADDRESS env) = false)
  /\ (In WatchAddressMalformed errors <->
      truthy (WATCH_ADDRESS env) = true
      /\ isValidTronAddress (WATCH_ADDRESS env) = false)
  /\ (In DestinationAddressMissing errors <->
      truthy (DESTINATION_ADDRESS env) = false)
  /\ (In DestinationAddressMalformed errors <->
      truthy (DESTINATION_ADDRESS env) = true
      /\ isValidTronAddress (DESTINATION_ADDRESS env) = false)
  /\ (In MinAmountNotPositive errors <-> minAmount <= 0)
  /\ (In ReserveAmountNegative errors <-> reserveAmount < 0)
  /\ (In MinAmountNotAboveReserve errors <-> minAmount <= reserveAmount)
  /\ (In CheckIntervalTooShort errors <-> (checkInterval < 1000)%Z).
Proof.
  intros mn rs iv. unfold loadConfig. fold mn rs iv.
  set (all := _ ++ _).
  intros Refused.
  assert (Is : errors = all).
  { destruct all, (PRIVATE_KEY env), (WATCH_ADDRESS env),
      (DESTINATION_ADDRESS env); now inversion Refused. }
  assert (Some_error : all <> []).
  { intros Clean. rewrite Clean in Refused.
    unfold all in Clean.
    apply app_eq_nil in Clean as [K Clean].
    apply app_eq_nil in Clean as [W Clean].
    apply app_eq_nil in Clean as [D _].
    apply check_string_nil in K as [K _], W as [W _], D as [D _].
    destruct (PRIVATE_KEY env); [| discriminate].
    destruct (WATCH_ADDRESS env); [| discriminate].
    destruct (DESTINATION_ADDRESS env); discriminate. }
  subst errors. split; [exact Some_error |]. unfold all.
  rewrite <- (Qle_bool_iff mn 0), <- (Qle_bool_iff mn rs),
    <- (Qltb_lt rs 0), <- (Z.ltb_lt iv 1000).
  repeat match goal with |- _ /\ _ => split end;
    rewrite !in_app_iff, !in_check_string, !in_check;
    cbn [isNaN orb]; intuition (try discriminate).
Qed.

Lemma loadConfig_reports_every_failed_check_witness :
  loadConfig Scenario.broken =
  inr [PrivateKeyMissing; WatchAddressMalformed; ReserveAmountNegative;
       CheckIntervalTooShort]
  /\ (In ReserveAmountNegative
         [PrivateKeyMissing; WatchAddressMalformed; ReserveAmountNegative;
          CheckIntervalTooShort]
      <-> number_or (RESERVE_AMOUNT Scenario.broken) 1 < 0)
  /\ (In MinAmountNotPositive
         [PrivateKeyMissing; WatchAddressMalformed; ReserveAmountNegative;
          CheckIntervalTooShort]
      <-> number_or (MIN_AMOUNT Scenario.broken) (3 # 2) <= 0).
Proof.
  split; [reflexivity |].
  destruct (loadConfig_reports_every_failed_check Scenario.broken
              [PrivateKeyMissing; WatchAddressMalformed;
               ReserveAmountNegative; CheckIntervalTooShort] eq_refl)
    as (_ & _ & _ & _ & _ & _ & _ & MinAmount & Reserve & _).
  split; [exact Reserve | exact MinAmount].
Defined.

(** ** Strings *)

Lemma length_append (a b : string) :
  String.length (a ++ b)%string = (String.length a + String.length b)%nat.
Proof. induction a as [| c a IH]; cbn; auto. Qed.

Lemma list_ascii_append (a b : string) :
  list_ascii_of_string (a ++ b)%string =
  list_ascii_of_string a ++ list_ascii_of_string b.
Proof. induction a as [| c a IH]; cbn; [reflexivity | now rewrite IH]. Qed.

(** ** The logger's two sinks *)

Section LoggerFacts.

Import Logger.
Local Open Scope nat_scope.
Local Open Scope string_scope.

Lemma esc_value : esc = Ascii true true false true true false false false.
Proof. reflexivity. Qed.

(** A literal without the escape character. *)
Ltac literal := unfold plain; rewrite esc_value; cbn; intuition discriminate.

Lemma plain_append (a b : string) : plain (a ++ b) <-> plain a /\ plain b.
Proof.
  unfold plain. rewrite list_ascii_append, in_app_iff. tauto.
Qed.

Lemma plain_digits (d : Decimal.uint) : plain (NilEmpty.string_of_uint d).
Proof.
  unfold plain. rewrite esc_value.
  induction d; cbn; [tauto | ..];
    intros [Is | In]; try discriminate Is; contradiction.
Qed.

Lemma plain_padStart n s : plain s -> plain (padStart n "0" s).
Proof.
  intros P. unfold padStart. apply plain_append. split; [| exact P].
  unfold plain. rewrite list_ascii_of_string_of_list_ascii.
  intros In. apply repeat_spec in In. rewrite esc_value in In.
  discriminate In.
Qed.

Lemma plain_getTimestamp now : plain (getTimestamp now).
Proof.
  assert (Literal : forall c : ascii,
            c <> esc -> forall rest, plain rest -> plain (String c rest)).
  { intros c Other rest P [Is | In]; [now apply Other | now apply P]. }
  assert (Padded : forall n rest,
            plain rest -> plain (padStart 2 "0" (String_of n) ++ rest)).
  { intros n rest P. apply plain_append. split; [| exact P].
    apply plain_padStart, plain_digits. }
  unfold getTimestamp. cbv zeta. cbn [append].
  apply Literal; [discriminate |]. apply Padded.
  apply Literal; [discriminate |]. apply Padded.
  apply Literal; [discriminate |]. apply Padded.
  apply Literal; [discriminate |]. intros [].
Qed.

Lemma plain_icons type : plain (icons type).
Proof. destruct type; literal. Qed.

Lemma file_console_log line s : file (console_log line s) = file s.
Proof. reflexivity. Qed.

Lemma writeToFile_ok now message s :
  writeToFile now (Resolved tt) message s =
  {| console := console s;
     file := (file s ++ [(iso now ++ " " ++ message ++ lf)%string])%list |}.
Proof. reflexivity. Qed.

Lemma writeToFile_failed now e message s :
  writeToFile now (Rejected e) message s = s.
Proof. reflexivity. Qed.

(** X4.  Logging to the file is best effort: when the write fails the
    caller sees no exception, the console has the same line as when it
    succeeds, and the file is as it was.  A working disk gets one chunk
    per call, and one more for an error that has a stack. *)
Theorem file_logging_is_best_effort
  (type : LogType) (message color : string) (failure : option Failure)
  (now : Clock) (e : Error) (s : Sinks) :
  let written := log type message color now (Resolved tt) s in
  let dropped := log type message color now (Rejected e) s in
  let written_error := log_error message failure now (Resolved tt) s in
  let dropped_error := log_error message failure now (Rejected e) s in
  console dropped = console written
  /\ file dropped = file s
  /\ length (console written) = S (length (console s))
  /\ length (file written) = S (length (file s))
  /\ console dropped_error = console written_error
  /\ file dropped_error = file s
  /\ length (console written_error) = S (length (console s))
  /\ length (file written_error) =
     match failure with
     | Some f => if truthy (stack f) then S (S (length (file s)))
                 else S (length (file s))
     | None => S (length (file s))
     end.
Proof.
  cbv zeta. unfold log_error, log. cbv zeta.
  rewrite !writeToFile_ok, !writeToFile_failed.
  destruct failure as [[msg [st |]] |]; cbn [truthy stack];
    try destruct st; rewrite ?writeToFile_ok, ?writeToFile_failed;
    cbn [console file console_log]; rewrite ?length_app; cbn [length];
    repeat split; lia.
Qed.

(** X5.  The colour codes go to the console only: a chunk written to the
    file holds no escape character unless the message, the error or the
    ISO time stamp brings one, while the console line always starts with
    one. *)
Theorem colour_codes_stay_out_of_the_file
  (type : LogType) (message color : string) (failure : option Failure)
  (now : Clock) (disk : Result unit) (s : Sinks) :
  plain message ->
  plain (iso now) ->
  match failure with
  | Some f => plain (render (failure_message f)) /\ plain (render (stack f))
  | None => True
  end ->
  Forall plain (file s) ->
  Forall plain (file (log type message color now disk s))
  /\ Forall plain (file (log_error message failure now disk s))
  /\ exists rest,
       last (console (log type message color now disk s)) "" =
       String esc rest.
Proof.
  intros Pm Pi Pf Ps.
  assert (Chunk : forall text, plain text ->
            plain (iso now ++ " " ++ text ++ lf)).
  { intros text Pt.
    apply plain_append; split; [exact Pi |].
    apply plain_append; split; [literal |].
    apply plain_append; split; [exact Pt | literal]. }
  assert (Line : forall ty text, plain text ->
            plain (getTimestamp now ++ " " ++ icons ty ++ " " ++ text)).
  { intros ty text Pt.
    apply plain_append; split; [apply plain_getTimestamp |].
    apply plain_append; split; [literal |].
    apply plain_append; split; [apply plain_icons |].
    apply plain_append; split; [literal | exact Pt]. }
  assert (Written : forall text s0, plain text -> Forall plain (file s0) ->
            Forall plain (file (writeToFile now disk text s0))).
  { intros text s0 Pt P0. destruct disk as [[] | e];
      rewrite ?writeToFile_ok, ?writeToFile_failed; [| exact P0].
    cbn [file]. apply Forall_app. split; [exact P0 |].
    constructor; [now apply Chunk | constructor]. }
  assert (Logged : forall ty text col s0, plain text ->
            Forall plain (file s0) ->
            Forall plain (file (log ty text col now disk s0))).
  { intros ty text col s0 Pt P0. unfold log. cbv zeta.
    apply Written; [now apply Line | exact P0]. }
  split; [now apply Logged |]. split.
  - unfold log_error. cbv zeta.
    destruct failure as [f |]; [| now apply Logged].
    destruct Pf as [Pmsg Pst].
    assert (First : Forall plain
              (file (log error (message ++ ": " ++ render (failure_message f))
                         red now disk s))).
    { apply Logged; [| exact Ps].
      apply plain_append; split; [exact Pm |].
      apply plain_append; split; [literal | exact Pmsg]. }
    destruct (truthy (stack f)); [| exact First].
    apply Written; [| exact First].
    apply plain_append. split; [literal | exact Pst].
  - unfold log. cbv zeta.
    destruct disk as [[] | e]; rewrite ?writeToFile_ok, ?writeToFile_failed;
      cbn [console console_log]; rewrite last_last; unfold dim; cbn; eauto.
Qed.

Lemma colour_codes_stay_out_of_the_file_witness :
  plain "monitoring started"
  /\ Forall plain
       (file (log info "monitoring started" cyan Scenario.morning
                  (Resolved tt) Scenario.blank))
  /\ Forall plain
       (file (log_error "monitoring started" None Scenario.morning
                        (Resolved tt) Scenario.blank))
  /\ exists rest,
       last (console (log info "monitoring started" cyan Scenario.morning
                          (Resolved tt) Scenario.blank)) "" =
       String esc rest.
Proof.
  split; [literal |].
  apply (colour_codes_stay_out_of_the_file info "monitoring started" cyan
           None Scenario.morning (Resolved tt) Scenario.blank).
  - literal.
  - literal.
  - exact I.
  - constructor.
Defined.

Lemma length_copies (s : string) (n : nat) :
  String.length (copies s n) = (n * String.length s)%nat.
Proof.
  induction n as [| n IH]; cbn [copies]; [reflexivity |].
  rewrite length_append, IH. cbn. lia.
Qed.


Lemma two_digits (n : nat) :
  (n < 100)%nat -> String.length (padStart 2 "0" (String_of n)) = 2%nat.
Proof.
  intros Small.
  assert (All : forallb
                  (fun n => Nat.eqb (String.length
                                       (padStart 2 "0" (String_of n))) 2)
                  (seq 0 100) = true) by (vm_compute; reflexivity).
  rewrite forallb_forall in All.
  apply Nat.eqb_eq, All, in_seq. lia.
Qed.

(** X7.  For a time of day, [getTimestamp] is ten characters long:
    [[HH:MM:SS]] with every field padded to two digits. *)
Theorem getTimestamp_has_fixed_width (now : Clock) :
  (hours now < 24)%nat -> (minutes now < 60)%nat -> (seconds now < 60)%nat ->
  String.length (getTimestamp now) = 10%nat
  /\ exists h m s,
       getTimestamp now = "[" ++ h ++ ":" ++ m ++ ":" ++ s ++ "]"
       /\ String.length h = 2%nat /\ String.length m = 2%nat
       /\ String.length s = 2%nat.
Proof.
  intros H M S.
  pose proof (two_digits (hours now) ltac:(lia)) as Lh.
  pose proof (two_digits (minutes now) ltac:(lia)) as Lm.
  pose proof (two_digits (seconds now) ltac:(lia)) as Ls.
  split.
  - unfold getTimestamp. cbv zeta. rewrite !length_append, Lh, Lm, Ls.
    reflexivity.
  - now exists (padStart 2 "0" (String_of (hours now))),
      (padStart 2 "0" (String_of (minutes now))),
      (padStart 2 "0" (String_of (seconds now))).
Qed.

Lemma getTimestamp_has_fixed_width_witness :
  hours Scenario.morning < 24
  /\ String.length (getTimestamp Scenario.morning) = 10
  /\ exists h m s,
       getTimestamp Scenario.morning = "[" ++ h ++ ":" ++ m ++ ":" ++ s ++ "]"
       /\ String.length h = 2 /\ String.length m = 2 /\ String.length s = 2.
Proof.
  split; [cbn; lia |].
  apply (getTimestamp_has_fixed_width Scenario.morning); cbn; lia.
Defined.

End LoggerFacts.

(** ** Amounts: SUN, TRX and their text *)






(** ** [waitForConfirmation] *)

Section ConfirmationFacts.

Import Confirmation.

Lemma queries_app l1 l2 : queries (l1 ++ l2) = (queries l1 + queries l2)%nat.
Proof. induction l1 as [| [] l1 IH]; cbn; auto. Qed.

Lemma slept_app l1 l2 : (slept (l1 ++ l2) = slept l1 + slept l2)%Z.
Proof. induction l1 as [| [] l1 IH]; cbn; auto. lia. Qed.

Lemma errors_logged_app l1 l2 :
  errors_logged (l1 ++ l2) = errors_logged l1 ++ errors_logged l2.
Proof. induction l1 as [| [] l1 IH]; cbn; auto. now rewrite IH. Qed.

(** One iteration of the loop, by what the node answers. *)
Lemma attempts_step node txid maxAttempts interval i n :
  attempts node txid maxAttempts interval i (S n) =
  match node i with
  | Resolved tx =>
      if confirmed tx
      then ([Queried txid; Logged success (LineConfirmed txid)],
            Resolved true)
      else
        let (l, r) := attempts node txid maxAttempts interval (S i) n in
        (Queried txid :: Logged info (LineWaiting (i + 1)%nat maxAttempts)
           :: Slept interval :: l, r)
  | Rejected e =>
      let (l, r) := attempts node txid maxAttempts interval (S i) n in
      (Queried txid :: LoggedError (LineGetTransactionFailed txid) e
         :: Slept interval :: l, r)
  end.
Proof.
  cbn [attempts]. unfold getTransaction.
  destruct (node i) as [tx | e]; cbn.
  - destruct (confirmed tx); cbn; [reflexivity |].
    now destruct (attempts node txid maxAttempts interval (S i) n).
  - now destruct (attempts node txid maxAttempts interval (S i) n).
Qed.

Lemma first_confirmed_some node i n j :
  first_confirmed node i n = Some j ->
  (i <= j < i + n)%nat /\ confirms node j = true
  /\ forall k, (i <= k < j)%nat -> confirms node k = false.
Proof.
  revert i. induction n as [| n IH]; intros i; cbn [first_confirmed];
    [discriminate |].
  destruct (confirms node i) eqn:C.
  - intros E. inversion E; subst j. split; [lia |]. split; [exact C |].
    intros k Hk. lia.
  - intros E. destruct (IH _ E) as (R & Cj & Before).
    split; [lia |]. split; [exact Cj |].
    intros k Hk. destruct (Nat.eq_dec k i) as [-> | Ne]; [exact C |].
    apply Before. lia.
Qed.

Lemma first_confirmed_none node i n :
  first_confirmed node i n = None <->
  forall k, (i <= k < i + n)%nat -> confirms node k = false.
Proof.
  revert i. induction n as [| n IH]; intros i; cbn [first_confirmed].
  - split; [intros _ k Hk; lia | reflexivity].
  - destruct (confirms node i) eqn:C.
    + split; [discriminate |]. intros H. specialize (H i). rewrite C in H.
      assert ((i <= i < i + S n)%nat) by lia. specialize (H H0). discriminate.
    + rewrite IH. split; intros H k Hk.
      * destruct (Nat.eq_dec k i) as [-> | Ne]; [exact C |]. apply H. lia.
      * apply H. lia.
Qed.

Lemma first_confirmed_found node i n j :
  (i <= j < i + n)%nat -> confirms node j = true ->
  (forall k, (i <= k < j)%nat -> confirms node k = false) ->
  first_confirmed node i n = Some j.
Proof.
  intros R C Before.
  destruct (first_confirmed node i n) as [j' |] eqn:F.
  - destruct (first_confirmed_some _ _ _ _ F) as (R' & C' & Before').
    f_equal. destruct (Nat.lt_trichotomy j j') as [Lt | [Eq | Gt]].
    + rewrite Before' in C by lia. discriminate.
    + now symmetry.
    + rewrite Before in C' by lia. discriminate.
  - rewrite first_confirmed_none in F. rewrite F in C by lia. discriminate.
Qed.

(** The whole loop, by the first iteration that finds the transaction
    confirmed. *)
Lemma attempts_spec node txid maxAttempts interval n : forall i,
  let run := attempts node txid maxAttempts interval i n in
  match first_confirmed node i n with
  | Some j =>
      snd run = Resolved true
      /\ queries (fst run) = S (j - i)%nat
      /\ slept (fst run) = (Z.of_nat (j - i) * interval)%Z
      /\ errors_logged (fst run) = rejections node i (j - i)%nat
      /\ last (fst run) (Queried txid) = Logged success (LineConfirmed txid)
  | None =>
      snd run = Resolved false
      /\ queries (fst run) = n
      /\ slept (fst run) = (Z.of_nat n * interval)%Z
      /\ errors_logged (fst run) = rejections node i n
      /\ last (fst run) (Queried txid) =
         Logged warning (LineNotConfirmed txid maxAttempts)
  end.
Proof.
  induction n as [| n IH]; intros i; cbv zeta.
  - cbn. repeat split; lia.
  - rewrite attempts_step. cbn [first_confirmed]. unfold confirms.
    specialize (IH (S i)). cbv zeta in IH.
    destruct (node i) as [tx | e] eqn:Answer;
      [destruct (confirmed tx);
       [rewrite Nat.sub_diag; cbn; repeat split |] |];
      destruct (attempts node txid maxAttempts interval (S i) n) as [l r];
      cbn [fst snd] in *;
      (destruct (first_confirmed node (S i) n) as [j |] eqn:F;
       [destruct (first_confirmed_some _ _ _ _ F) as (R & _);
        replace (j - i)%nat with (S (j - S i)) by lia |]);
      destruct IH as (Res & Q & Sl & Er & La);
      cbn [queries slept errors_logged rejections];
      rewrite Answer, Q, Sl, Er;
      (split; [exact Res |]); (split; [reflexivity |]); (split; [lia |]);
      (split; [reflexivity |]);
      (destruct l; [discriminate | exact La]).
Qed.

(** X10.  [waitForConfirmation] stops at the first query that finds the
    transaction confirmed: it returns [true], having made that many
    queries and no more, having waited [interval] after each query before
    it, and having logged the errors of the queries that were rejected. *)
Theorem waitForConfirmation_stops_at_first_confirmation
  (node : nat -> Result (option TransactionInfo)) (txid : string)
  (maxAttempts : nat) (interval : Z) (i : nat) :
  (i < maxAttempts)%nat ->
  confirms node i = true ->
  (forall k, (k < i)%nat -> confirms node k = false) ->
  let run := waitForConfirmation node txid maxAttempts interval in
  snd run = Resolved true
  /\ queries (fst run) = S i
  /\ slept (fst run) = (Z.of_nat i * interval)%Z
  /\ errors_logged (fst run) = rejections node 0 i
  /\ last (fst run) (Queried txid) = Logged success (LineConfirmed txid).
Proof.
  intros Within Confirmed Before. cbv zeta. unfold waitForConfirmation.
  pose proof (attempts_spec node txid maxAttempts interval maxAttempts 0)
    as Spec.
  cbv zeta in Spec.
  rewrite (first_confirmed_found node 0 maxAttempts i) in Spec;
    [| lia | exact Confirmed | intros k Hk; apply Before; lia].
  now rewrite Nat.sub_0_r in Spec.
Qed.

Lemma waitForConfirmation_stops_at_first_confirmation_witness :
  confirms Scenario.third_time 2 = true
  /\ (let run :=
        waitForConfirmation Scenario.third_time "a1b2" default_maxAttempts
                            default_interval in
      snd run = Resolved true
      /\ queries (fst run) = 3%nat
      /\ slept (fst run) = (Z.of_nat 2 * default_interval)%Z
      /\ errors_logged (fst run) = rejections Scenario.third_time 0 2
      /\ last (fst run) (Queried "a1b2") =
         Logged success (LineConfirmed "a1b2")).
Proof.
  split; [reflexivity |].
  apply (waitForConfirmation_stops_at_first_confirmation
           Scenario.third_time "a1b2" default_maxAttempts default_interval 2).
  - unfold default_maxAttempts. lia.
  - reflexivity.
  - intros [| [| k]] Before; [reflexivity | reflexivity | lia].
Defined.

(** X11.  When none of the first [maxAttempts] queries finds the
    transaction confirmed, [waitForConfirmation] gives up: it returns
    [false] after exactly [maxAttempts] queries and as many waits of
    [interval], and its last line is the warning.  With [maxAttempts] 0 it
    makes no query at all. *)
Theorem waitForConfirmation_gives_up
  (node : nat -> Result (option TransactionInfo)) (txid : string)
  (maxAttempts : nat) (interval : Z) :
  (forall k, (k < maxAttempts)%nat -> confirms node k = false) ->
  let run := waitForConfirmation node txid maxAttempts interval in
  snd run = Resolved false
  /\ queries (fst run) = maxAttempts
  /\ slept (fst run) = (Z.of_nat maxAttempts * interval)%Z
  /\ errors_logged (fst run) = rejections node 0 maxAttempts
  /\ last (fst run) (Queried txid) =
     Logged warning (LineNotConfirmed txid maxAttempts).
Proof.
  intros Never. cbv zeta. unfold waitForConfirmation.
  pose proof (attempts_spec node txid maxAttempts interval maxAttempts 0)
    as Spec.
  cbv zeta in Spec.
  assert (None_found : first_confirmed node 0 maxAttempts = None).
  { apply first_confirmed_none. intros k Hk. apply Never. lia. }
  now rewrite None_found in Spec.
Qed.

Lemma waitForConfirmation_gives_up_witness :
  confirms Scenario.unknown 0 = false
  /\ (let run := waitForConfirmation Scenario.unknown "a1b2" 3 1000 in
      snd run = Resolved false
      /\ queries (fst run) = 3%nat
      /\ slept (fst run) = (Z.of_nat 3 * 1000)%Z
      /\ errors_logged (fst run) = rejections Scenario.unknown 0 3
      /\ last (fst run) (Queried "a1b2") =
         Logged warning (LineNotConfirmed "a1b2" 3)).
Proof.
  split; [reflexivity |].
  apply (waitForConfirmation_gives_up Scenario.unknown "a1b2" 3 1000).
  intros k Within. reflexivity.
Defined.

Lemma rejections_length node i n : (length (rejections node i n) <= n)%nat.
Proof.
  revert i. induction n as [| n IH]; intros i; cbn [rejections length];
    [lia |].
  destruct (node i); cbn [length]; specialize (IH (S i)); lia.
Qed.

(** X12.  [waitForConfirmation] never throws, whatever the node answers: a
    rejected query is logged and the loop goes on.  It returns [true]
    exactly when one of the first [maxAttempts] queries finds the
    transaction confirmed, and it never makes more than [maxAttempts]
    queries. *)
Theorem waitForConfirmation_never_throws
  (node : nat -> Result (option TransactionInfo)) (txid : string)
  (maxAttempts : nat) (interval : Z) :
  let run := waitForConfirmation node txid maxAttempts interval in
  exists verdict,
    snd run = Resolved verdict
    /\ (verdict = true <->
        exists i, (i < maxAttempts)%nat /\ confirms node i = true)
    /\ (queries (fst run) <= maxAttempts)%nat
    /\ (length (errors_logged (fst run)) <= queries (fst run))%nat.
Proof.
  cbv zeta. unfold waitForConfirmation.
  pose proof (attempts_spec node txid maxAttempts interval maxAttempts 0)
    as Spec.
  cbv zeta in Spec.
  destruct (first_confirmed node 0 maxAttempts) as [j |] eqn:Found.
  - destruct (first_confirmed_some _ _ _ _ Found) as (Range & Confirmed & _).
    destruct Spec as (Res & Q & _ & Er & _).
    exists true. split; [exact Res |]. split.
    + split; [intros _; exists j; split; [lia | exact Confirmed] | reflexivity].
    + rewrite Er, Q. pose proof (rejections_length node 0 (j - 0)). lia.
  - destruct Spec as (Res & Q & _ & Er & _).
    rewrite first_confirmed_none in Found.
    exists false. split; [exact Res |]. split.
    + split; [discriminate |]. intros (i & Range & Confirmed).
      rewrite Found in Confirmed by lia. discriminate.
    + rewrite Er, Q. pose proof (rejections_length node 0 maxAttempts). lia.
Qed.

End ConfirmationFacts.

(** ** The deferred resync and [displayStats] *)

Lemma resync_observe (m : Machine) (replies : list Reply) :
  observe resync_callback replies m =
  match replies with
  | BalanceReply (Resolved sun) :: _ =>
      (resynced (TronService.fromSun sun) m, Done tt)
  | BalanceReply (Rejected e) :: _ => (resync_failed e m, Done tt)
  | _ => (polled m, Waiting (ReqGetBalance (watchAddress (cfg (self m)))))
  end.
Proof.
  unfold observe, resync_callback, resynced, resync_failed. paths. symex.
  destruct replies as [| [[sun | e] | node] rest]; symex;
    rewrite ?getBalance_resolved, ?getBalance_rejected; symex; reflexivity.
Qed.

(** X13.  The deferred resync of lines 164-172 sets [lastBalance] to the
    balance it reads and logs it, touching neither the stats, the flag nor
    the timers; if the read fails it logs the failure and leaves the
    forwarder as it was; and it never throws. *)
Theorem resync_overwrites_lastBalance
  (m : Machine) (sun : Z) (e : Error) (rest replies : list Reply) :
  let read := observe resync_callback (BalanceReply (Resolved sun) :: rest) m in
  let failed :=
    observe resync_callback (BalanceReply (Rejected e) :: rest) m in
  (snd read = Done tt
   /\ self (fst read) = set_lastBalance (TronService.fromSun sun) (self m)
   /\ logs (fst read) =
      logs m ++ [Log balance (MsgRemaining (TronService.fromSun sun))]
   /\ timers (fst read) = timers m
   /\ requests (fst read) =
      requests m ++ [ReqGetBalance (watchAddress (cfg (self m)))])
  /\ (snd failed = Done tt
      /\ self (fst failed) = self m
      /\ logs (fst failed) =
         logs m
         ++ [LogError (MsgGetBalanceFailed (watchAddress (cfg (self m)))) e;
             LogError MsgNewBalanceFailed e]
      /\ timers (fst failed) = timers m)
  /\ (forall e', snd (observe resync_callback replies m) <> Failed e').
Proof.
  cbv zeta. rewrite !resync_observe. cbn [fst snd].
  unfold resynced, resync_failed. split; [| split].
  - project. repeat split.
  - project. repeat split.
  - intros e'. destruct replies as [| [[sun' | e0] | node] others];
      discriminate.
Qed.

(** X14.  What the resync has read counts as seen: a check that then
    reads the same balance finds it unchanged, so it logs nothing and
    submits nothing, even if that balance reaches [minAmount]. *)
Theorem balance_seen_by_resync_is_not_forwarded
  (m : Machine) (sun : Z) (rest : list Reply) :
  isProcessing (self m) = false ->
  let m1 := fst (observe resync_callback [BalanceReply (Resolved sun)] m) in
  let check := observe checkBalance (BalanceReply (Resolved sun) :: rest) m1 in
  snd check = Done tt
  /\ logs (fst check) = logs m1
  /\ submissions (requests (fst check)) = submissions (requests m1)
  /\ self (fst check) = self m1.
Proof.
  intros Idle m1 check.
  assert (M1 : m1 = resynced (TronService.fromSun sun) m).
  { unfold m1. now rewrite resync_observe. }
  assert (Idle1 : isProcessing (self m1) = false).
  { rewrite M1. unfold resynced. project. exact Idle. }
  assert (Last1 : lastBalance (self m1) = TronService.fromSun sun).
  { rewrite M1. unfold resynced. project. reflexivity. }
  assert (Run : check = (polled m1, Done tt)).
  { unfold check. rewrite (checkBalance_read _ _ _ Idle1).
    unfold check_resumed.
    replace (lastBalance (self (polled m1))) with (lastBalance (self m1))
      by reflexivity.
    rewrite Last1.
    replace (Qltb (TronService.fromSun sun) (TronService.fromSun sun))
      with false; [reflexivity |].
    symmetry. apply Qltb_ge. apply Qle_refl. }
  rewrite Run. cbn [fst snd]. project. repeat split.
  rewrite submissions_app. cbn. apply app_nil_r.
Qed.

Lemma balance_seen_by_resync_is_not_forwarded_witness :
  isProcessing (self (Session.idle 10)) = false
  /\ (let m1 :=
        fst (observe resync_callback [Session.sun 20] (Session.idle 10)) in
      let check := observe checkBalance [Session.sun 20] m1 in
      snd check = Done tt
      /\ logs (fst check) = logs m1
      /\ submissions (requests (fst check)) = submissions (requests m1)
      /\ self (fst check) = self m1).
Proof.
  split; [reflexivity |].
  apply (balance_seen_by_resync_is_not_forwarded
           (Session.idle 10) (20 * 1000000) []).
  reflexivity.
Defined.

(** X15.  [displayStats()] splits the run time, in whole seconds, into
    hours, minutes below 60 and seconds below 60 that add up to it again,
    and it changes nothing but the log. *)
Theorem displayStats_splits_the_run_time (m : Machine) :
  (startTime (stats (self m)) <= clock m)%Z ->
  exists hours minutes seconds,
    run displayStats m =
    (with_log
       [Separator "═"; Log info MsgStatsTitle; Separator "─";
        Log info (MsgRunTime hours minutes seconds);
        Log info (MsgTransfersCount (transfersCount (stats (self m))));
        Log info (MsgTotalForwarded (totalAmount (stats (self m))));
        Separator "═"] m,
     Returned tt)
    /\ (hours * 3600 + minutes * 60 + seconds =
        (clock m - startTime (stats (self m))) / 1000)%Z
    /\ (0 <= hours)%Z
    /\ (0 <= minutes < 60)%Z
    /\ (0 <= seconds < 60)%Z.
Proof.
  intros Started.
  set (runTime := ((clock m - startTime (stats (self m))) / 1000)%Z).
  assert (NonNeg : (0 <= runTime)%Z) by (apply Z.div_pos; lia).
  exists (runTime / 3600)%Z, (Z.rem runTime 3600 / 60)%Z, (Z.rem runTime 60).
  split; [reflexivity |].
  rewrite !Z.rem_mod_nonneg by lia.
  pose proof (Z.mod_pos_bound runTime 3600 ltac:(lia)) as B1.
  pose proof (Z.mod_pos_bound runTime 60 ltac:(lia)) as B2.
  pose proof (Z.div_mod runTime 3600 ltac:(lia)) as D1.
  pose proof (Z.div_mod (runTime mod 3600) 60 ltac:(lia)) as D2.
  assert (M : ((runTime mod 3600) mod 60 = runTime mod 60)%Z).
  { symmetry. rewrite (Z.div_mod runTime 3600) at 1 by lia.
    replace (3600 * (runTime / 3600) + runTime mod 3600)%Z
      with (runTime mod 3600 + (60 * (runTime / 3600)) * 60)%Z by lia.
    apply Z.mod_add. lia. }
  split; [lia |]. split; [apply Z.div_pos; lia |].
  split; [| lia].
  split; [apply Z.div_pos; lia |].
  apply Z.div_lt_upper_bound; lia.
Qed.

Lemma displayStats_splits_the_run_time_witness :
  (startTime (stats (self (advance 3725000 (Session.idle 10))))
   <= clock (advance 3725000 (Session.idle 10)))%Z
  /\ exists hours minutes seconds,
       run displayStats (advance 3725000 (Session.idle 10)) =
       (with_log
          [Separator "═"; Log info MsgStatsTitle; Separator "─";
           Log info (MsgRunTime hours minutes seconds);
           Log info (MsgTransfersCount 0);
           Log info (MsgTotalForwarded 0);
           Separator "═"] (advance 3725000 (Session.idle 10)),
        Returned tt)
       /\ (hours * 3600 + minutes * 60 + seconds = 3725000 / 1000)%Z
       /\ (0 <= hours)%Z
       /\ (0 <= minutes < 60)%Z
       /\ (0 <= seconds < 60)%Z.
Proof.
  split; [discriminate |].
  apply (displayStats_splits_the_run_time (advance 3725000 (Session.idle 10))).
  discriminate.
Defined.

(** ** From [start()] to [stop()] *)

















(** ** Turn by turn *)

Lemma every_turn_run {A} (P : Turn A -> Prop) (p : Prog A) o m0 m :
  every_turn P p o m0 m ->
  P (mkTurn o m0 (fst (run p m)) (status (snd (run p m))))
  /\ tame_outcome P (snd (run p m)).
Proof.
  revert m.
  induction p as [a | e0 | k IH | t k IH | ev k IH | k IH | cb d k IH
                  | h k IH | cb d k IH | a k IH | a q k IH];
    cbn [every_turn run]; intros m E;
    try (now apply IH); try exact E; split; exact E || exact I.
Qed.

Lemma tame_resume {A} (P : Turn A -> Prop) (s : Suspended A) r m1 mo :
  tame P s ->
  resume s r m1 = Some mo ->
  P (mkTurn (Answered (request_of s) r) m1 (fst mo) (status (snd mo)))
  /\ tame_outcome P (snd mo).
Proof.
  intros T R. destruct s as [a k | a q k], r as [node | node];
    cbn [resume] in R; try discriminate.
  - destruct (TronService.getBalance node a) as [l res] eqn:E.
    inversion R; subst mo; clear R.
    specialize (T node m1). rewrite E in T. cbn [fst snd] in T.
    exact (every_turn_run _ _ _ _ _ T).
  - destruct (TronService.sendTrx node (sourceAddress (self m1)) a q)
      as [l res] eqn:E.
    inversion R; subst mo; clear R.
    specialize (T node m1). rewrite E in T. cbn [fst snd] in T.
    exact (every_turn_run _ _ _ _ _ T).
Qed.

Lemma land_filed (w : World) (mo : Machine * Outcome unit) rest :
  filed w (land w mo rest) rest (status (snd mo)).
Proof.
  destruct mo as [m [[] | e | [a k | a q k]]]; cbn; auto; split; eauto.
Qed.

Lemma tamed_land P w mo rest :
  Forall (tame P) rest -> tame_outcome P (snd mo) ->
  tamed P (land w mo rest).
Proof.
  unfold tamed. destruct mo as [m [[] | e | s]]; cbn; auto.
  intros R T. apply Forall_app. split; [exact R | now constructor].
Qed.

Lemma remove_nth_split {A} (i : nat) (l : list A) (x : A) :
  nth_error l i = Some x ->
  exists l1 l2, l = l1 ++ x :: l2 /\ remove_nth i l = l1 ++ l2.
Proof.
  revert l. induction i as [| i IH]; intros [| y l] Nth; try discriminate.
  - inversion Nth; subst. now exists [], l.
  - destruct (IH l Nth) as (l1 & l2 & -> & Removed).
    exists (y :: l1), l2. split; [reflexivity |].
    unfold remove_nth in *. cbn [firstn skipn app] in *. now rewrite Removed.
Qed.

Lemma Forall_remove_nth {A} (P : A -> Prop) i l :
  Forall P l -> Forall P (remove_nth i l).
Proof.
  intros H. unfold remove_nth. apply Forall_app. split.
  - rewrite <- (firstn_skipn i l) in H. now apply Forall_app in H.
  - rewrite <- (firstn_skipn (S i) l) in H. now apply Forall_app in H.
Qed.

Section Steps.

Variable P : Turn unit -> Prop.
Hypothesis start_turns : forall m, every_turn P start Called m m.
Hypothesis stop_turns : forall m, every_turn P stop Called m m.
Hypothesis callback_turns :
  forall cb m, every_turn P (callback_body cb) Called m m.

Lemma spawn_turn p w :
  every_turn P p Called (machine w) (machine w) -> tamed P w ->
  tamed P (spawn p w)
  /\ exists t, P t /\ origin t = Called /\ before t = machine w
               /\ after t = machine (spawn p w)
               /\ filed w (spawn p w) (pending w) (ending t).
Proof.
  intros E T. apply every_turn_run in E as [Now Later]. split.
  - now apply tamed_land.
  - eexists. split; [exact Now |]. cbn [origin before after ending].
    split; [reflexivity |]. split; [reflexivity |]. split.
    + unfold spawn. now rewrite machine_land.
    + apply land_filed.
Qed.

Lemma step_turn w i w' :
  tamed P w -> step w i = Some w' -> tamed P w' /\ Step_turn P w w' i.
Proof.
  intros T S. destruct i as [| | h | i r | dt]; cbn [step] in S.
  - inversion S; subst w'; clear S.
    destruct (spawn_turn start w (start_turns _) T)
      as (T' & t & Pt & O & B & A & F).
    split; [exact T' |]. eapply turn_call; eauto.
  - inversion S; subst w'; clear S.
    destruct (spawn_turn stop w (stop_turns _) T)
      as (T' & t & Pt & O & B & A & F).
    split; [exact T' |]. eapply turn_call; eauto.
  - destruct (find _ _) as [tm |] eqn:Found; [| discriminate].
    inversion S; subst w'; clear S.
    set (m := if repeating tm then machine w else disarm h (machine w)).
    destruct (spawn_turn (callback_body (callback tm))
                (mkWorld m (pending w) (escaped w))
                (callback_turns _ _) T)
      as (T' & t & Pt & O & B & A & F).
    split; [exact T' |].
    eapply turn_timer; eauto.
  - destruct (nth_error (pending w) i) as [s |] eqn:Nth; [| discriminate].
    destruct (resume s r (machine w)) as [mo |] eqn:R; [| discriminate].
    inversion S; subst w'; clear S.
    assert (Ts : tame P s).
    { unfold tamed in T. rewrite Forall_forall in T. apply T.
      eapply nth_error_In; eauto. }
    destruct (tame_resume P s r (machine w) mo Ts R) as [Now Later].
    split.
    + apply tamed_land; [| exact Later]. now apply Forall_remove_nth.
    + eapply turn_settles; eauto; cbn [origin before after ending]; auto.
      * now rewrite machine_land.
      * apply land_filed.
  - destruct (0 <=? dt)%Z eqn:Pos; [| discriminate].
    inversion S; subst w'; clear S. split; [exact T |].
    apply turn_time; [now apply Z.leb_le | reflexivity].
Qed.

End Steps.

Lemma failures_app l1 l2 :
  failures (l1 ++ l2) = (failures l1 + failures l2)%nat.
Proof.
  induction l1 as [| [ty m | m e | c] l1 IH]; cbn [app failures]; auto.
  destruct m; cbn; auto.
Qed.

Lemma failures_getBalance node a :
  failures (fst (TronService.getBalance node a)) = 0%nat.
Proof. destruct node; reflexivity. Qed.

Lemma failures_sendTrx node from a q :
  failures (fst (TronService.sendTrx node from a q)) = 0%nat.
Proof.
  unfold TronService.sendTrx. cbv zeta.
  destruct (TronService.on_build node _ _ _) as [t | e1]; cbn;
    [| reflexivity].
  destruct (TronService.on_sign node t) as [s | e2]; cbn; [| reflexivity].
  destruct (TronService.on_broadcast node s) as [b | e3]; cbn;
    [| reflexivity].
  destruct (TronService.br_result b); reflexivity.
Qed.

Lemma every_turn_try_catch {A} (P : Turn A -> Prop) (p : Prog A)
      (h : Error -> Prog A) :
  no_throw p ->
  forall o m0 m, every_turn P p o m0 m -> every_turn P (try_catch p h) o m0 m.
Proof.
  induction p as [a | e0 | k IH | t k IH | ev k IH | k IH | cb d k IH
                  | x k IH | cb d k IH | a k IH | a q k IH];
    cbn [no_throw try_catch every_turn]; intros Hp o m0 m E;
    try (now apply IH); try exact E; try contradiction.
  - destruct E as [Now Later]. split; [exact Now |].
    intros node m1. now apply IH.
  - destruct E as [Now Later]. split; [exact Now |].
    intros node m1. now apply IH.
Qed.

Ltac turn_norm :=
  cbn [every_turn bind try_catch try_finally this assign logger logger_error
       logger_separator settle await_getBalance await_sendTrx
       self clock timers fresh logs requests
       cfg sourceAddress lastBalance isProcessing checkIntervalId stats
       privateKey watchAddress destinationAddress minAmount reserveAmount
       checkInterval tronApiKey transfersCount totalAmount startTime
       with_self said with_request arm disarm advance update
       set_lastBalance set_isProcessing set_checkIntervalId set_stats
       incr_transfersCount add_totalAmount fst snd
       TronService.sr_success TronService.sr_txid TronService.sr_amount
       TronService.sr_toAddress message status].

Ltac count_failures :=
  rewrite ?failures_app, ?failures_getBalance, ?failures_sendTrx;
  try match goal with
      | H : failures (logs _) = failures (logs _) |- _ => rewrite H
      end;
  try match goal with H : failures _ = 0%nat |- _ => rewrite H end;
  cbn [failures]; lia.

Ltac logs_grow :=
  try match goal with H : logs _ = logs _ ++ _ |- _ => rewrite H end;
  first [ exists []; symmetry; apply app_nil_r
        | rewrite <- ?app_assoc; eexists; reflexivity ].

(** The end of a turn: compute the fields of the machine it leaves, and
    settle the laws that hold by computation. *)
Ltac tracked :=
  unfold tracks; cbn [origin before after];
  repeat (turn_norm; progress autorewrite with machine);
  turn_norm;
  first [ reflexivity
        | apply Qeq_refl
        | match goal with
          | Q : Quiet _ _ _ |- _ => exact (quiet_lastBalance _ _ _ Q)
          end ].

Ltac ends_turn :=
  constructor;
  try (match goal with |- tracks _ _ _ => idtac end; solve [tracked]);
  cbn [origin before after ending asked settles_send];
  repeat (turn_norm; progress autorewrite with machine);
  turn_norm;
  try match goal with
      | Q : Quiet _ _ _ |- _ =>
          rewrite ?(quiet_cfg _ _ _ Q), ?(quiet_source _ _ _ Q),
            ?(quiet_stats _ _ _ Q), ?(quiet_clock _ _ _ Q),
            ?(quiet_requests _ _ _ Q), ?(quiet_flag _ _ _ Q)
      end;
  try match goal with
      | |- ?x = ?x => reflexivity
      | |- ?l = ?l ++ [] => symmetry; apply app_nil_r
      | |- Forall _ [] => constructor
      | |- exists l, _ = _ ++ l => logs_grow
      | |- _ = false -> _ = _ /\ failures _ = _ =>
          intros _; split; [reflexivity | count_failures]
      | |- false = true -> _ => discriminate
      | |- forall e, Done _ = Failed _ -> _ => discriminate
      | |- forall e, Waiting _ = Failed _ -> _ => discriminate
      | |- forall a q, Done _ = Waiting _ -> _ => discriminate
      | |- forall a q, Waiting (ReqGetBalance _) = Waiting _ -> _ =>
          discriminate
      | |- forall a q r, Called = Answered _ _ -> _ => discriminate
      | |- forall a q r, Answered (ReqGetBalance _) _ = Answered _ _ -> _ =>
          discriminate
      | |- true = false -> _ => discriminate
      | |- ?x = true -> _ \/ (?x = true /\ _) =>
          let Raised := fresh in
          intros Raised; right; split;
          [exact Raised | reflexivity || assumption]
      end.

Ltac so_far Q :=
  pose proof (quiet_failures _ _ _ Q) as Fl;
  destruct (quiet_logs _ _ _ Q) as [l0 Lg];
  pose proof (quiet_origin _ _ _ Q) as Org.

Lemma forwardTRX_lawful (watch : string) (sun : Z) (m0 m : Machine) :
  let o := Answered (ReqGetBalance watch) (BalanceReply (Resolved sun)) in
  Quiet o m0 m ->
  lastBalance (self m0) < TronService.fromSun sun ->
  lastBalance (self m) = TronService.fromSun sun ->
  every_turn Lawful (forwardTRX (TronService.fromSun sun)) o m0 m.
Proof.
  intros o Q Up Last. subst o. so_far Q.
  set (b := TronService.fromSun sun) in *.
  unfold forwardTRX. turn_norm.
  destruct (Qltb b (minAmount (cfg (self m)))) eqn:Low; turn_norm;
    [ends_turn |].
  destruct (Qle_bool (b - reserveAmount (cfg (self m))) 0) eqn:Left;
    turn_norm; [ends_turn |].
  rewrite (quiet_cfg _ _ _ Q) in Low, Left.
  apply Qltb_ge in Low. apply Qle_bool_gt in Left.
  split.
  { ends_turn.
    - constructor; [| constructor]. cbn [allowed].
      split; [reflexivity |]. split; [exact Left |]. now exists b.
    - intros _. left. eauto.
    - intros a q E. inversion E; subst a q; clear E.
      exists watch, sun. fold b. now repeat split. }
  clear. intros node m1.
  destruct (TronService.sendTrx node _ _ _) as [l [r | e]] eqn:Sent;
    turn_norm.
  - destruct (sendTrx_resolved _ _ _ _ _ _ Sent) as (Ok & _).
    rewrite Ok. turn_norm.
    assert (Silent : failures l = 0%nat).
    { replace l with (fst (TronService.sendTrx node (sourceAddress (self m1))
                           (destinationAddress (cfg (self m)))
                           (b - reserveAmount (cfg (self m)))))
        by now rewrite Sent.
      apply failures_sendTrx. }
    ends_turn. intros a q r0 E. inversion E; subst; clear E.
    split; [reflexivity |]. split; [reflexivity |]. left.
    split; [reflexivity | count_failures].
  - assert (Silent : failures l = 0%nat).
    { replace l with (fst (TronService.sendTrx node (sourceAddress (self m1))
                           (destinationAddress (cfg (self m)))
                           (b - reserveAmount (cfg (self m)))))
        by now rewrite Sent.
      apply failures_sendTrx. }
    destruct (message e) as [msg |]; turn_norm;
      [destruct (negb _ && _); turn_norm |];
      ends_turn; intros a q r0 E; inversion E; subst; clear E;
      (split; [reflexivity |]); (split; [reflexivity |]); right;
      (split; [reflexivity | count_failures]).
Qed.

Lemma Quiet_refl m : Quiet Called m m.
Proof. constructor; try reflexivity. exists []. symmetry. apply app_nil_r. Qed.

Lemma checkBalance_lawful o m0 m :
  Quiet o m0 m -> every_turn Lawful checkBalance o m0 m.
Proof.
  intros Q. so_far Q. unfold checkBalance. turn_norm.
  destruct (isProcessing (self m)) eqn:Busy; turn_norm.
  { ends_turn.
    intros a q r E. subst o. discriminate Org. }
  split.
  { ends_turn.
    - constructor; [| constructor]. reflexivity.
    - intros a q r E. subst o. discriminate Org. }
  clear. intros [sun | e] m1;
    rewrite ?getBalance_resolved, ?getBalance_rejected; turn_norm.
  - cbn [with_log fold_left].
    destruct (Qltb (lastBalance (self m1)) (TronService.fromSun sun)) eqn:Up;
      turn_norm.
    + apply every_turn_try_catch; [apply forwardTRX_no_throw |].
      apply forwardTRX_lawful; [| now apply Qltb_lt | reflexivity].
      constructor; turn_norm; try reflexivity; [logs_grow | count_failures].
    + destruct (Qltb (TronService.fromSun sun) (lastBalance (self m1)))
        eqn:Down; turn_norm; ends_turn.
      unfold tracks. apply Qltb_ge in Up, Down. now apply Qle_antisym.
  - ends_turn.
Qed.

Lemma start_lawful m : every_turn Lawful start Called m m.
Proof.
  unfold start. turn_norm. split.
  { ends_turn. constructor; [reflexivity | constructor]. }
  clear. intros [sun | e] m1;
    rewrite ?getBalance_resolved, ?getBalance_rejected; turn_norm.
  - cbn [with_log fold_left].
    apply every_turn_try_catch; [apply checkBalance_no_throw |].
    apply checkBalance_lawful.
    constructor; turn_norm; try reflexivity; [logs_grow | count_failures].
  - ends_turn; [discriminate |].
    intros e0 E. inversion E as [Same]. rewrite <- Same. split.
    + apply in_or_app. right. now left.
    + eauto.
Qed.

Lemma stop_lawful m : every_turn Lawful stop Called m m.
Proof.
  unfold stop, displayStats. turn_norm.
  destruct (checkIntervalId (self m)) as [h |]; turn_norm; ends_turn.
Qed.

Lemma resync_lawful m : every_turn Lawful resync_callback Called m m.
Proof.
  unfold resync_callback. turn_norm. split.
  { ends_turn. constructor; [reflexivity | constructor]. }
  clear. intros [sun | e] m1;
    rewrite ?getBalance_resolved, ?getBalance_rejected; turn_norm;
    ends_turn.
Qed.

Lemma callback_lawful cb m : every_turn Lawful (callback_body cb) Called m m.
Proof.
  destruct cb; cbn [callback_body].
  - apply checkBalance_lawful, Quiet_refl.
  - apply resync_lawful.
Qed.

(** ** The invariant of the forwarder *)

Lemma is_send_request (s : Suspended unit) :
  is_send s = is_submit (request_of s).
Proof. now destruct s. Qed.

Lemma in_flight_waiting (w : World) :
  forwards_in_flight w = length (submissions (waiting_for w)).
Proof.
  unfold forwards_in_flight, waiting_for.
  induction (pending w) as [| [a k | a q k] l IH]; cbn; auto.
Qed.

Lemma amounts_app l1 l2 : amounts (l1 ++ l2) == amounts l1 + amounts l2.
Proof.
  induction l1 as [| [a q] l1 IH]; cbn [app amounts]; [lra |].
  rewrite IH. lra.
Qed.

Lemma amounts_positive (c : Config) (l : list Request) :
  Forall (allowed c) l -> 0 <= amounts (submissions l).
Proof.
  induction 1 as [| [a | a q] l Ok _ IH]; cbn [submissions amounts];
    [lra | exact IH |].
  destruct Ok as (_ & Pos & _). lra.
Qed.

Lemma waiting_filed w w' rest st :
  filed w w' rest st -> waiting_for w' = map request_of rest ++ asked st.
Proof.
  unfold waiting_for. destruct st as [[] | e | r]; cbn [filed asked].
  - intros [-> _]. now rewrite app_nil_r.
  - intros [-> _]. now rewrite app_nil_r.
  - intros [(s & -> & <-) _]. now rewrite map_app.
Qed.

Lemma escaped_filed w w' rest st :
  filed w w' rest st ->
  escaped w' = escaped w ++ match st with Failed e => [e] | _ => [] end.
Proof.
  destruct st as [[] | e | r]; cbn [filed]; intros [_ ->];
    now rewrite ?app_nil_r.
Qed.

Lemma waiting_removed (w : World) i s :
  nth_error (pending w) i = Some s ->
  exists l1 l2,
    waiting_for w = l1 ++ request_of s :: l2
    /\ map request_of (remove_nth i (pending w)) = l1 ++ l2.
Proof.
  intros Nth. unfold waiting_for.
  destruct (remove_nth_split i _ s Nth) as (l1 & l2 & -> & ->).
  exists (map request_of l1), (map request_of l2).
  now rewrite !map_app.
Qed.

Lemma sound_init config address now :
  Sound config address now (init config address now).
Proof.
  constructor; cbn; try reflexivity; try lia; try constructor;
    try discriminate.
Qed.

(** A turn that does not begin at the answer to a transfer. *)
Lemma sound_turn config address now w w' (t : Turn unit)
      (rest : list (Suspended unit)) m0 :
  Sound config address now w -> tamed Lawful w' ->
  Lawful t -> settles_send (origin t) = false ->
  before t = m0 -> after t = machine w' -> filed w w' rest (ending t) ->
  self m0 = self (machine w) -> clock m0 = clock (machine w) ->
  requests m0 = requests (machine w) -> logs m0 = logs (machine w) ->
  Forall (allowed config) (map request_of rest) ->
  submissions (map request_of rest) = submissions (waiting_for w) ->
  Sound config address now w'.
Proof.
  intros [Cfg Src Start Clock Reqs Waits Count Total Flag Esc Tame] Tame'
         L O B A F Self0 Clock0 Req0 Logs0 Rest Same.
  destruct (law_stats t L O) as [Stats Fails].
  pose proof (waiting_filed _ _ _ _ F) as W'.
  pose proof (law_requests t L) as R'.
  pose proof (law_allowed t L) as Ok.
  pose proof (law_cfg t L) as C'.
  pose proof (law_source t L) as S'.
  pose proof (law_startTime t L) as T'.
  pose proof (law_clock t L) as K'.
  pose proof (law_flag t L) as G'.
  pose proof (law_failed t L) as E'.
  destruct (law_logs t L) as [l Grew].
  rewrite B, ?Self0, ?Clock0, ?Req0, ?Logs0 in *.
  rewrite A in *. clear B A.
  constructor.
  - now rewrite C'.
  - now rewrite S'.
  - now rewrite T'.
  - now rewrite K'.
  - rewrite R'. apply Forall_app. split; [exact Reqs |]. now rewrite <- Cfg.
  - rewrite W'. apply Forall_app. split; [exact Rest |]. now rewrite <- Cfg.
  - rewrite R', submissions_app, length_app, in_flight_waiting, W',
      submissions_app, length_app, Same, Stats, Fails.
    rewrite in_flight_waiting in Count. lia.
  - rewrite R', W', !submissions_app, !amounts_app, Same, Stats. lra.
  - intros Up.
    rewrite in_flight_waiting, W', submissions_app, length_app, Same.
    destruct (G' Up) as [(a & q & Ends) | [Was _]].
    + rewrite Ends. cbn. lia.
    + specialize (Flag Was). rewrite in_flight_waiting in Flag. lia.
  - rewrite (escaped_filed _ _ _ _ F). apply Forall_app. split.
    + rewrite Grew. eapply Forall_impl; [| exact Esc].
      intros e In. apply in_or_app. now left.
    + destruct (ending t) as [[] | e | r] eqn:Ends; constructor;
        [| constructor].
      now apply E'.
  - exact Tame'.
Qed.

Lemma sound_step config address now w i w' :
  Sound config address now w -> step w i = Some w' ->
  Sound config address now w'.
Proof.
  intros S Step. pose proof S as [Cfg Src Start Clock Reqs Waits Count Total
                                   Flag Esc Tame].
  destruct (step_turn Lawful start_lawful stop_lawful callback_lawful
                      w i w' Tame Step) as [Tame' Took].
  inversion Took as [i0 t Which L O B A F | h tm t Found L O B A F
                     | n r s t Nth L O B A F | dt Pos Eq].
  - apply (sound_turn config address now w w' t (pending w) (machine w));
      auto. now rewrite O.
  - apply (sound_turn config address now w w' t (pending w)
             (if repeating tm then machine w else disarm h (machine w)));
      auto; [now rewrite O | | | |]; now destruct (repeating tm).
  - destruct (waiting_removed w n s Nth) as (l1 & l2 & Was & Rest).
    rewrite Was in Waits. apply Forall_app in Waits as [Ok1 Ok2].
    apply Forall_cons_iff in Ok2 as [Ok Ok2].
    assert (Others : Forall (allowed config)
                            (map request_of (remove_nth n (pending w)))).
    { rewrite Rest. apply Forall_app. now split. }
    destruct (request_of s) as [a | a q] eqn:Kind.
    + apply (sound_turn config address now w w' t
               (remove_nth n (pending w)) (machine w)); auto.
      * now rewrite O.
      * now rewrite Rest, Was, !submissions_app.
    + destruct (law_settled t L a q r O) as (Ends & Down & Counted).
      pose proof (waiting_filed _ _ _ _ F) as W'.
      pose proof (escaped_filed _ _ _ _ F) as X'.
      pose proof (law_requests t L) as R'.
      pose proof (law_cfg t L) as C'.
      pose proof (law_source t L) as S'.
      pose proof (law_startTime t L) as T'.
      pose proof (law_clock t L) as K'.
      destruct (law_logs t L) as [l Grew].
      rewrite Ends in *. cbn [asked] in *. rewrite app_nil_r in *.
      rewrite B in *. rewrite A in *. clear B A.
      rewrite in_flight_waiting, Was, submissions_app in Count.
      cbn [submissions] in Count. rewrite length_app in Count.
      cbn [length] in Count.
      rewrite Was, submissions_app in Total. cbn [submissions] in Total.
      rewrite amounts_app in Total. cbn [amounts] in Total.
      destruct Ok as (_ & Pos & _).
      constructor.
      * now rewrite C'.
      * now rewrite S'.
      * now rewrite T'.
      * now rewrite K'.
      * now rewrite R'.
      * now rewrite W'.
      * rewrite R', in_flight_waiting, W', Rest, submissions_app, length_app.
        destruct Counted as [[Stats Fails] | [Stats Fails]];
          rewrite Stats, Fails; cbn; lia.
      * rewrite R', W', Rest, submissions_app, amounts_app.
        destruct Counted as [[Stats _] | [Stats _]]; rewrite Stats; cbn;
          lra.
      * rewrite Down. discriminate.
      * rewrite X', ?app_nil_r, Grew. eapply Forall_impl; [| exact Esc].
        intros e In. apply in_or_app. now left.
      * exact Tame'.
  - rewrite Eq. constructor; cbn; auto. lia.
Qed.

Lemma sound_steps config address now inputs : forall w w',
  Sound config address now w -> steps w inputs = Some w' ->
  Sound config address now w'.
Proof.
  induction inputs as [| i rest IH]; intros w w' S Steps; cbn in Steps.
  - now inversion Steps; subst.
  - destruct (step w i) as [w1 |] eqn:Step; [| discriminate].
    apply (IH w1); [| exact Steps]. eapply sound_step; eauto.
Qed.

Lemma reached_sound config address now inputs w :
  steps (init config address now) inputs = Some w ->
  Sound config address now w.
Proof. apply sound_steps, sound_init. Qed.

Lemma turn_of_step config address now w i w' :
  Sound config address now w -> step w i = Some w' ->
  Step_turn Lawful w w' i.
Proof.
  intros S Step.
  now destruct (step_turn Lawful start_lawful stop_lawful callback_lawful
                          w i w' (sound_pending _ _ _ _ S) Step).
Qed.

(** X17.  On every schedule and whatever the node answers, the forwarder
    only reads the balance of the watched address, and only submits
    transfers to the destination address, of a positive amount that is a
    balance of at least [minAmount] less the reserve. *)
Theorem requests_stay_within_config
  (config : Config) (address : string) (now : Z) (inputs : list Input)
  (w : World) :
  steps (init config address now) inputs = Some w ->
  (forall a, In (ReqGetBalance a) (requests (machine w)) ->
             a = watchAddress config)
  /\ (forall a q, In (ReqSendTrx a q) (requests (machine w)) ->
        a = destinationAddress config
        /\ 0 < q
        /\ exists b, q = b - reserveAmount config /\ minAmount config <= b).
Proof.
  intros Reached.
  pose proof (sound_requests _ _ _ _
                (sound_steps _ _ _ _ _ _ (sound_init config address now)
                             Reached)) as Ok.
  rewrite Forall_forall in Ok.
  split; [intros a In | intros a q In]; exact (Ok _ In).
Qed.

Lemma requests_stay_within_config_witness :
  exists w,
    steps Session.world0 Session.overlapping_reads = Some w
    /\ (forall a, In (ReqGetBalance a) (requests (machine w)) ->
                  a = Session.watch)
    /\ (forall a q, In (ReqSendTrx a q) (requests (machine w)) ->
          a = Session.destination
          /\ 0 < q
          /\ exists b, q = b - 1 /\ (3 # 2) <= b).
Proof.
  eexists. split; [vm_compute; reflexivity |].
  apply (requests_stay_within_config Session.config Session.source 0
           Session.overlapping_reads).
  vm_compute; reflexivity.
Defined.





(** X20.  Whenever the [isProcessing] flag is up, a submitted transfer is
    waiting for its answer: a forward attempt that has returned never
    leaves the flag up. *)
Theorem flag_up_only_while_a_forward_waits
  (config : Config) (address : string) (now : Z) (inputs : list Input)
  (w : World) :
  steps (init config address now) inputs = Some w ->
  isProcessing (self (machine w)) = true ->
  (1 <= forwards_in_flight w)%nat.
Proof.
  intros Reached. apply reached_sound in Reached as S.
  apply (sound_flag _ _ _ _ S).
Qed.

Lemma flag_up_only_while_a_forward_waits_witness :
  exists w,
    steps Session.world0 Scenario.forwarding = Some w
    /\ isProcessing (self (machine w)) = true
    /\ (1 <= forwards_in_flight w)%nat.
Proof.
  eexists. split; [vm_compute; reflexivity |].
  split; [vm_compute; reflexivity |].
  apply (flag_up_only_while_a_forward_waits Session.config Session.source 0
           Scenario.forwarding);
    vm_compute; reflexivity.
Defined.

(** X21.  A turn submits at most one transfer, and only when it is the
    answer to a balance read that is above [lastBalance] and reaches
    [minAmount]: the transfer is of that balance less the reserve, to the
    destination, and [lastBalance] is then the balance read. *)
Theorem transfer_only_on_a_raised_balance
  (config : Config) (address : string) (now : Z) (inputs : list Input)
  (w : World) (i : Input) (w' : World) :
  steps (init config address now) inputs = Some w ->
  step w i = Some w' ->
  submissions (requests (machine w')) = submissions (requests (machine w))
  \/ exists n sun,
       i = Settles n (BalanceReply (Resolved sun))
       /\ lastBalance (self (machine w)) < TronService.fromSun sun
       /\ minAmount config <= TronService.fromSun sun
       /\ submissions (requests (machine w')) =
          submissions (requests (machine w))
          ++ [(destinationAddress config,
               TronService.fromSun sun - reserveAmount config)]
       /\ lastBalance (self (machine w')) = TronService.fromSun sun.
Proof.
  intros Reached Step. apply reached_sound in Reached as S.
  pose proof (turn_of_step _ _ _ _ _ _ S Step) as Took.
  assert (Quiet_turn : forall (t : Turn unit),
    Lawful t -> requests (before t) = requests (machine w) ->
    after t = machine w' ->
    (forall a q, ending t <> Waiting (ReqSendTrx a q)) ->
    submissions (requests (machine w')) = submissions (requests (machine w))).
  { intros t L B A Not. rewrite <- A, (law_requests t L), B, submissions_app.
    destruct (ending t) as [[] | e | [a | a q]]; cbn;
      rewrite ?app_nil_r; try reflexivity.
    now destruct (Not a q). }
  assert (Called_turn : forall (t : Turn unit),
    Lawful t -> origin t = Called ->
    requests (before t) = requests (machine w) ->
    after t = machine w' ->
    submissions (requests (machine w')) = submissions (requests (machine w))).
  { intros t L O B A. apply (Quiet_turn t L B A). intros a q Ends.
    destruct (law_submit t L a q Ends) as (x & sun & O' & _).
    rewrite O in O'. discriminate. }
  inversion Took as [i0 t Which L O B A F | h tm t Found L O B A F
                     | n r s t Nth L O B A F | dt Pos Eq].
  - left. apply (Called_turn t L O); [now rewrite B | exact A].
  - left. apply (Called_turn t L O); [| exact A].
    rewrite B. now destruct (repeating tm).
  - destruct (ending t) as [[] | e | [a | a q]] eqn:Ends.
    1-3: left; apply (Quiet_turn t L); [now rewrite B | exact A |];
      intros a' q' E; rewrite Ends in E; discriminate.
    right. destruct (law_submit t L a q Ends)
      as (x & sun & O' & Up & Min & Amount & Last).
    rewrite O in O'. inversion O'; subst r.
    pose proof (law_allowed t L) as Ok. rewrite Ends in Ok.
    apply Forall_cons_iff in Ok as [(To & _) _].
    rewrite B, (sound_cfg _ _ _ _ S) in *.
    exists n, sun. split; [reflexivity |]. split; [exact Up |].
    split; [exact Min |]. split.
    + rewrite <- A, (law_requests t L), B, Ends, submissions_app.
      cbn. now rewrite To, Amount.
    + now rewrite <- A.
  - left. now rewrite Eq.
Qed.

Lemma transfer_only_on_a_raised_balance_witness :
  exists w w',
    steps Session.world0 Scenario.first_check = Some w
    /\ step w (Settles 0 (Session.sun 12)) = Some w'
    /\ (submissions (requests (machine w')) =
        submissions (requests (machine w))
        \/ exists n sun,
             Settles 0 (Session.sun 12) =
             Settles n (BalanceReply (Resolved sun))
             /\ lastBalance (self (machine w)) < TronService.fromSun sun
             /\ minAmount Session.config <= TronService.fromSun sun
             /\ submissions (requests (machine w')) =
                submissions (requests (machine w))
                ++ [(destinationAddress Session.config,
                     TronService.fromSun sun - reserveAmount Session.config)]
             /\ lastBalance (self (machine w')) = TronService.fromSun sun).
Proof.
  eexists. eexists. split; [vm_compute; reflexivity |].
  split; [vm_compute; reflexivity |].
  apply (transfer_only_on_a_raised_balance Session.config Session.source 0
           Scenario.first_check);
    vm_compute; reflexivity.
Defined.

(** X22.  An error leaves the forwarder only in the turn in which a
    balance read is rejected, and it has then been logged as a start
    failure: no timer callback, no [stop()] and no answer to a transfer
    lets one out. *)
Theorem error_escapes_only_from_start
  (config : Config) (address : string) (now : Z) (inputs : list Input)
  (w : World) (i : Input) (w' : World) :
  steps (init config address now) inputs = Some w ->
  step w i = Some w' ->
  escaped w' = escaped w
  \/ exists n e,
       i = Settles n (BalanceReply (Rejected e))
       /\ escaped w' = escaped w ++ [e]
       /\ In (LogError MsgStartFailed e) (logs (machine w')).
Proof.
  intros Reached Step. apply reached_sound in Reached as S.
  pose proof (turn_of_step _ _ _ _ _ _ S Step) as Took.
  assert (Turn_case : forall (t : Turn unit) rest,
    Lawful t -> after t = machine w' -> filed w w' rest (ending t) ->
    escaped w' = escaped w
    \/ exists e a,
         origin t = Answered (ReqGetBalance a) (BalanceReply (Rejected e))
         /\ escaped w' = escaped w ++ [e]
         /\ In (LogError MsgStartFailed e) (logs (machine w'))).
  { intros t rest L A F. rewrite (escaped_filed _ _ _ _ F).
    destruct (ending t) as [[] | e | r] eqn:Ends;
      [left; apply app_nil_r | | left; apply app_nil_r].
    right. destruct (law_failed t L e Ends) as (Logged & a & O).
    exists e, a. rewrite <- A. auto. }
  inversion Took as [i0 t Which L O B A F | h tm t Found L O B A F
                     | n r s t Nth L O B A F | dt Pos Eq].
  - destruct (Turn_case t _ L A F) as [Same | (e & a & O' & _)];
      [now left |]. rewrite O in O'. discriminate.
  - destruct (Turn_case t _ L A F) as [Same | (e & a & O' & _)];
      [now left |]. rewrite O in O'. discriminate.
  - destruct (Turn_case t _ L A F) as [Same | (e & a & O' & Out & Logged)];
      [now left |]. rewrite O in O'. inversion O'; subst r.
    right. now exists n, e.
  - left. now rewrite Eq.
Qed.

Lemma error_escapes_only_from_start_witness :
  exists w w',
    steps Session.world0 [CallStart] = Some w
    /\ step w (Settles 0 (BalanceReply (Rejected (new_Error "timeout"))))
       = Some w'
    /\ (escaped w' = escaped w
        \/ exists n e,
             Settles 0 (BalanceReply (Rejected (new_Error "timeout"))) =
             Settles n (BalanceReply (Rejected e))
             /\ escaped w' = escaped w ++ [e]
             /\ In (LogError MsgStartFailed e) (logs (machine w'))).
Proof.
  eexists. eexists. split; [vm_compute; reflexivity |].
  split; [vm_compute; reflexivity |].
  apply (error_escapes_only_from_start Session.config Session.source 0
           [CallStart]);
    vm_compute; reflexivity.
Defined.

(** X23.  [lastBalance] follows the node: whichever call asked, the turn
    in which a balance read is answered leaves [lastBalance] at the
    balance read, and no other turn changes it. *)
Theorem lastBalance_follows_the_node
  (config : Config) (address : string) (now : Z) (inputs : list Input)
  (w : World) (i : Input) (w' : World) :
  steps (init config address now) inputs = Some w ->
  step w i = Some w' ->
  match i with
  | Settles _ (BalanceReply (Resolved sun)) =>
      lastBalance (self (machine w')) == TronService.fromSun sun
  | _ => lastBalance (self (machine w')) = lastBalance (self (machine w))
  end.
Proof.
  intros Reached Step. apply reached_sound in Reached as S.
  pose proof (turn_of_step _ _ _ _ _ _ S Step) as Took.
  inversion Took as [i0 t Which L O B A F | h tm t Found L O B A F
                     | n r s t Nth L O B A F | dt Pos Eq].
  - pose proof (law_lastBalance t L) as T. rewrite O, B, A in T.
    destruct Which as [-> | ->]; exact T.
  - pose proof (law_lastBalance t L) as T. rewrite O, B, A in T.
    cbn [tracks] in T. rewrite T. now destruct (repeating tm).
  - pose proof (law_lastBalance t L) as T. rewrite O, B, A in T.
    unfold tracks in T.
    destruct (request_of s) as [a | a q] eqn:Kind.
    + destruct r as [[sun | e] | node]; exact T.
    + destruct s as [a' k | a' q' k]; [discriminate Kind |].
      destruct r as [node | node]; [| exact T].
      match goal with E : Settles _ _ = i |- _ => rewrite <- E in Step end.
      cbn [step] in Step. rewrite Nth in Step. discriminate Step.
  - now rewrite Eq.
Qed.

Lemma lastBalance_follows_the_node_witness :
  exists w w',
    steps Session.world0 Scenario.first_check = Some w
    /\ step w (Settles 0 (Session.sun 12)) = Some w'
    /\ lastBalance (self (machine w')) == TronService.fromSun (12 * 1000000).
Proof.
  eexists. eexists. split; [vm_compute; reflexivity |].
  split; [vm_compute; reflexivity |].
  eapply (lastBalance_follows_the_node Session.config Session.source 0
            Scenario.first_check _ (Settles 0 (Session.sun 12)));
    vm_compute; reflexivity.
Defined.
